(** * gcp-helper: the project lister and the IAM role granter

    A shallow embedding of [list-projects.py] and [grant-viewer-access.py].

    Modelling conventions.
    - A Python [str] is a [string]; a character stands for the code point of
      the same number, so the model covers text whose code points are below
      256.  Comparison of strings is lexicographic on code points, as in
      Python.
    - A statement that may raise yields an [outcome]; [sys.exit] and a
      normal return of a whole program are a [completion].
    - The provider's API is a store of IAM policies indexed by project
      identifier.  A request may also fail for reasons outside the store
      (transport, quota, permission): each request takes a [fault]
      argument chosen by the environment.
    - A worker task is a tree of atomic effects ([prog]); the thread pool
      interleaves the effects of the running tasks. *)

From Stdlib Require Import String Ascii List NArith ZArith Bool Lia.
From Stdlib Require Import Sorted Permutation.
From stdpp Require Import base option strings gmap list.

Local Open Scope string_scope.
Local Open Scope list_scope.

(** ** Python strings *)

Module Py.

(** Truth value of an optional string argument ([None] and [""] are false). *)
Definition truthy (s : option string) : bool :=
  match s with
  | Some (String _ _) => true
  | _ => false
  end.

(** [str(x)], as an f-string formats an optional string. *)
Definition to_str (s : option string) : string :=
  match s with
  | Some v => v
  | None => "None"
  end.

(** Truth value of a string. *)
Definition nonempty (s : string) : bool :=
  match s with
  | String _ _ => true
  | EmptyString => false
  end.

(** [str.isspace] on one character: TAB..CR, FS..US, SPACE, NEL, NBSP. *)
Definition isspace (c : ascii) : bool :=
  let n := N_of_ascii c in
  ((9 <=? n)%N && (n <=? 13)%N) || ((28 <=? n)%N && (n <=? 32)%N)
  || (n =? 133)%N || (n =? 160)%N.

Fixpoint lstrip (s : string) : string :=
  match s with
  | EmptyString => EmptyString
  | String c r => if isspace c then lstrip r else s
  end.

Fixpoint rstrip (s : string) : string :=
  match s with
  | EmptyString => EmptyString
  | String c r =>
      match rstrip r with
      | EmptyString => if isspace c then EmptyString else String c EmptyString
      | r' => String c r'
      end
  end.

(** [s.strip()] *)
Definition strip (s : string) : string := rstrip (lstrip s).

(** [str.lower] on one character: A..Z and the Latin-1 capitals. *)
Definition lower_char (c : ascii) : ascii :=
  let n := N_of_ascii c in
  if ((65 <=? n)%N && (n <=? 90)%N)
     || ((192 <=? n)%N && (n <=? 222)%N && negb (n =? 215)%N)
  then ascii_of_N (n + 32) else c.

Fixpoint lower (s : string) : string :=
  match s with
  | EmptyString => EmptyString
  | String c r => String (lower_char c) (lower r)
  end.

(** [x in l] for a list of strings. *)
Fixpoint contains (x : string) (l : list string) : bool :=
  match l with
  | [] => false
  | y :: r => if String.eqb y x then true else contains x r
  end.

(** [sorted(l, key=key)]: Python's sort is stable, and so is this
    insertion sort: elements are inserted from the right, each before the
    first element whose key is not smaller than its own. *)
Section Sorted.
Context {A : Type} (key : A -> string).

Fixpoint insert_sorted (x : A) (l : list A) : list A :=
  match l with
  | [] => [x]
  | y :: r => if String.leb (key x) (key y) then x :: l
              else y :: insert_sorted x r
  end.

Fixpoint sorted (l : list A) : list A :=
  match l with
  | [] => []
  | x :: r => insert_sorted x (sorted r)
  end.
End Sorted.

End Py.

(** ** Outcomes of statements and of programs *)

(** A statement returns a value or raises an exception, kept as its text. *)
Inductive outcome (A : Type) : Type :=
| Returned (a : A)
| Raised (ex : string).
Arguments Returned {A} a.
Arguments Raised {A} ex.

(** A program part either goes on with a value or ends the process. *)
Inductive completion (A : Type) : Type :=
| Continue (a : A)
| Exit (code : Z).
Arguments Continue {A} a.
Arguments Exit {A} code.

(** ** IAM policies *)

Module Iam.

(** One binding of a policy.  ['members'] may be absent from the object. *)
Record binding : Type := Binding {
  role : string;
  members : option (list string)
}.

(** A policy object.  ['bindings'] may be absent; [etag] stands for the
    fields the granter passes through unchanged. *)
Record policy : Type := Policy {
  bindings : option (list binding);
  etag : string
}.

(** [d.get(k, [])] *)
Definition get_or_nil {A : Type} (o : option (list A)) : list A :=
  match o with
  | Some l => l
  | None => []
  end.

(** The scan of [check_permission]: some binding of the role lists the
    member. *)
Fixpoint has_member (bs : list binding) (member role_ : string) : bool :=
  match bs with
  | [] => false
  | b :: rest =>
      if String.eqb (role b) role_ then
        if Py.contains member (get_or_nil (members b)) then true
        else has_member rest member role_
      else has_member rest member role_
  end.

(** The loop of [grant_iam_permission] over the bindings.  It stops at the
    first binding of the role.  [Returned None]: no binding of the role
    ([binding_found] stays false); [Returned (Some bs')]: the bindings after
    the loop; [Raised]: [binding['members']] on a binding without members. *)
Fixpoint add_member (bs : list binding) (member role_ : string)
  : outcome (option (list binding)) :=
  match bs with
  | [] => Returned None
  | b :: rest =>
      if String.eqb (role b) role_ then
        if negb (Py.contains member (get_or_nil (members b))) then
          match members b with
          | Some ms =>
              Returned (Some (Binding (role b) (Some (ms ++ [member])) :: rest))
          | None => Raised "'members'"
          end
        else Returned (Some (b :: rest))
      else
        match add_member rest member role_ with
        | Returned (Some rest') => Returned (Some (b :: rest'))
        | Returned None => Returned None
        | Raised ex => Raised ex
        end
  end.

(** The policy update between the read and the write. *)
Definition add_binding (p : policy) (member role_ : string) : outcome policy :=
  match add_member (get_or_nil (bindings p)) member role_ with
  | Raised ex => Raised ex
  | Returned (Some bs') => Returned (Policy (Some bs') (etag p))
  | Returned None =>
      Returned (Policy (Some (get_or_nil (bindings p)
                              ++ [Binding role_ (Some [member])])) (etag p))
  end.

End Iam.

(** ** The provider's project listing *)

Module Listing.

(** One project of a listing response. *)
Record project_resource : Type := ProjectResource {
  projectId : string;
  lifecycleState : string;
  name : option string;
  projectNumber : option string
}.

(** The responses the listing endpoint gives to the chain of requests:
    [MorePages] is a response that carries a ['nextPageToken'], [LastPage]
    one that does not, [Failure] a request whose [execute()] raises.  The
    ['projects'] key may be absent from a response. *)
Inductive listing : Type :=
| LastPage (projects : option (list project_resource))
| MorePages (projects : option (list project_resource)) (nextPageToken : string)
            (next : listing)
| Failure (ex : string).

End Listing.

(** ** list-projects.py *)

Module Lister.

(** A project as the lister keeps it: [{'id', 'name', 'number'}]. *)
Record project : Type := Project {
  id : string;
  name : string;
  number : string
}.

(** [d.get(k, default)] on an optional field. *)
Definition get_default (o : option string) (default : string) : string :=
  match o with
  | Some v => v
  | None => default
  end.

(** The inner [for project in response['projects']] loop. *)
Fixpoint append_active (page : list Listing.project_resource)
    (projects : list project) : list project :=
  match page with
  | [] => projects
  | p :: rest =>
      if String.eqb (Listing.lifecycleState p) "ACTIVE" then
        append_active rest
          (projects ++ [Project (Listing.projectId p)
                                (get_default (Listing.name p) "UNNAMED")
                                (get_default (Listing.projectNumber p) "N/A")])
      else append_active rest projects
  end.

(** The [while request is not None] loop. *)
Fixpoint fetch_pages (l : Listing.listing) (projects : list project)
  : outcome (list project) :=
  match l with
  | Listing.Failure ex => Raised ex
  | Listing.LastPage page =>
      Returned (append_active (Iam.get_or_nil page) projects)
  | Listing.MorePages page _ next =>
      fetch_pages next (append_active (Iam.get_or_nil page) projects)
  end.

(** [get_all_projects()]; [credentials] is false when
    [google.auth.default()] raises. *)
Definition get_all_projects (credentials : bool) (l : Listing.listing)
  : completion (list project) :=
  if credentials then
    match fetch_pages l [] with
    | Returned projects => Continue (Py.sorted id projects)
    | Raised _ => Exit 1
    end
  else Exit 1.

Section Filter.
(** [re_search pattern s] is whether [re.search(pattern, s, re.IGNORECASE)]
    finds a match; it raises when the pattern does not compile. *)
Variable re_search : string -> string -> outcome bool.

(** [if exclude_pattern: if re.search(exclude_pattern, ...)] *)
Definition matches_exclude (exclude_pattern : option string)
    (project_id : string) : outcome bool :=
  match exclude_pattern with
  | Some pat => if Py.nonempty pat then re_search pat project_id
                else Returned false
  | None => Returned false
  end.

(** [if include_pattern: if not re.search(include_pattern, ...)] *)
Definition misses_include (include_pattern : option string)
    (project_id : string) : outcome bool :=
  match include_pattern with
  | Some pat =>
      if Py.nonempty pat then
        match re_search pat project_id with
        | Returned found => Returned (negb found)
        | Raised ex => Raised ex
        end
      else Returned false
  | None => Returned false
  end.

(** The loop of [filter_projects], with its two accumulators. *)
Fixpoint filter_loop (include_pattern exclude_pattern : option string)
    (projects filtered excluded : list project)
  : outcome (list project * list project) :=
  match projects with
  | [] => Returned (filtered, excluded)
  | project :: rest =>
      let project_id := id project in
      match matches_exclude exclude_pattern project_id with
      | Raised ex => Raised ex
      | Returned true =>
          filter_loop include_pattern exclude_pattern rest
                      filtered (excluded ++ [project])
      | Returned false =>
          match misses_include include_pattern project_id with
          | Raised ex => Raised ex
          | Returned true =>
              filter_loop include_pattern exclude_pattern rest
                          filtered (excluded ++ [project])
          | Returned false =>
              filter_loop include_pattern exclude_pattern rest
                          (filtered ++ [project]) excluded
          end
      end
  end.

Definition filter_projects (projects : list project)
    (include_pattern exclude_pattern : option string)
  : outcome (list project * list project) :=
  filter_loop include_pattern exclude_pattern projects [] [].
End Filter.

(** A matcher for the patterns of the help text: alternatives separated by
    [|], each a literal of letters, digits, [-] and [_], compared without
    regard to case.  It is [re.search] with [re.IGNORECASE] on these
    patterns and declines the others. *)
Definition is_literal_char (c : ascii) : bool :=
  let n := N_of_ascii c in
  ((48 <=? n)%N && (n <=? 57)%N) || ((65 <=? n)%N && (n <=? 90)%N)
  || ((97 <=? n)%N && (n <=? 122)%N) || (n =? 45)%N || (n =? 95)%N.

Fixpoint split_alternatives (pat : string) (cur : string) : list string :=
  match pat with
  | EmptyString => [cur]
  | String c r =>
      if Ascii.eqb c "|" then cur :: split_alternatives r EmptyString
      else split_alternatives r (cur +:+ String c EmptyString)
  end.

Fixpoint all_literal (pat : string) : bool :=
  match pat with
  | EmptyString => true
  | String c r => (is_literal_char c || Ascii.eqb c "|") && all_literal r
  end.

Fixpoint is_prefix (p s : string) : bool :=
  match p, s with
  | EmptyString, _ => true
  | String a p', String b s' => Ascii.eqb a b && is_prefix p' s'
  | String _ _, EmptyString => false
  end.

Fixpoint occurs_in (p s : string) : bool :=
  is_prefix p s ||
  match s with
  | EmptyString => false
  | String _ s' => occurs_in p s'
  end.

Definition literal_search (pat s : string) : outcome bool :=
  if all_literal pat then
    Returned (existsb (fun alt => occurs_in (Py.lower alt) (Py.lower s))
                      (split_alternatives pat EmptyString))
  else Raised "unsupported pattern".

End Lister.

(** ** grant-viewer-access.py *)

Module Granter.

(** The parsed command line. *)
Record args : Type := Args {
  all_projects : bool;
  projects_file : string;
  user_email : option string;
  service_account : option string;
  role : string;
  max_workers : Z;
  dry_run : bool;
  check_only : bool
}.

(** What the granter reads of the ambient credential: the two attributes
    it probes, each present or not. *)
Record credential : Type := Credential {
  service_account_email : option string;
  _service_account_email : option string
}.

(** *** Resolving the member *)

(** [get_current_user_email()]; [userinfo] is the outcome of the oauth2
    [userinfo().get().execute()] request reduced to its ['email'] field. *)
Definition get_current_user_email (cred : credential)
    (userinfo : outcome (option string)) : option string :=
  match service_account_email cred with
  | Some e => Some ("serviceAccount:" +:+ e)
  | None =>
      match _service_account_email cred with
      | Some e => Some ("serviceAccount:" +:+ e)
      | None =>
          match userinfo with
          | Returned email =>
              if Py.truthy email then Some ("user:" +:+ Py.to_str email)
              else None
          | Raised _ => None
          end
      end
  end.

(** [get_member_identifier()] *)
Definition get_member_identifier (a : args) (cred : credential)
    (userinfo : outcome (option string)) : completion string :=
  if Py.truthy (user_email a) then
    Continue ("user:" +:+ Py.to_str (user_email a))
  else if Py.truthy (service_account a) then
    Continue ("serviceAccount:" +:+ Py.to_str (service_account a))
  else
    match get_current_user_email cred userinfo with
    | Some member => if Py.nonempty member then Continue member else Exit 1
    | None => Exit 1
    end.

(** *** Enumerating the projects *)

(** The inner loop of [get_all_projects]. *)
Fixpoint append_active (page : list Listing.project_resource)
    (projects : list string) : list string :=
  match page with
  | [] => projects
  | p :: rest =>
      if String.eqb (Listing.lifecycleState p) "ACTIVE" then
        append_active rest (projects ++ [Listing.projectId p])
      else append_active rest projects
  end.

Fixpoint fetch_pages (l : Listing.listing) (projects : list string)
  : outcome (list string) :=
  match l with
  | Listing.Failure ex => Raised ex
  | Listing.LastPage page =>
      Returned (append_active (Iam.get_or_nil page) projects)
  | Listing.MorePages page _ next =>
      fetch_pages next (append_active (Iam.get_or_nil page) projects)
  end.

Definition get_all_projects (l : Listing.listing) : completion (list string) :=
  match fetch_pages l [] with
  | Returned projects => Continue (Py.sorted (fun p => p) projects)
  | Raised _ => Exit 1
  end.

(** Text mode reading: [\r\n] and [\r] become [\n]. *)
Definition LF : ascii := ascii_of_N 10.
Definition CR : ascii := ascii_of_N 13.

Fixpoint universal_newlines (s : string) : string :=
  match s with
  | EmptyString => EmptyString
  | String c r =>
      if Ascii.eqb c CR then
        match r with
        | String c' r' =>
            if Ascii.eqb c' LF then String LF (universal_newlines r')
            else String LF (universal_newlines r)
        | EmptyString => String LF EmptyString
        end
      else String c (universal_newlines r)
  end.

(** The lines a file iterator yields, each with its end of line. *)
Fixpoint split_lines (s : string) : list string :=
  match s with
  | EmptyString => []
  | String c r =>
      if Ascii.eqb c LF then String c EmptyString :: split_lines r
      else match split_lines r with
           | [] => [String c EmptyString]
           | line :: rest => String c line :: rest
           end
  end.

Definition file_lines (content : string) : list string :=
  split_lines (universal_newlines content).

(** The [for line in f] loop of [get_projects_from_file]. *)
Fixpoint read_lines (lines : list string) (projects : list string)
  : list string :=
  match lines with
  | [] => projects
  | line :: rest =>
      let project_id := Py.strip line in
      if Py.nonempty project_id then read_lines rest (projects ++ [project_id])
      else read_lines rest projects
  end.

(** [get_projects_from_file(filename)] over a file system that maps the
    names of the existing files to their text. *)
Definition get_projects_from_file (fs : gmap string string) (filename : string)
  : completion (list string) :=
  match fs !! filename with
  | Some content => Continue (read_lines (file_lines content) [])
  | None => Exit 1
  end.

(** *** Worker tasks *)

Inductive counter : Type := Success | Failure | AlreadyGranted.

Inductive task_status : Type :=
| granted
| already_granted
| would_grant
| failed.

(** The dictionary a task returns. *)
Record task_result : Type := TaskResult {
  project_id : string;
  status : task_status;
  message : string
}.

(** A task: a tree of atomic effects.  The two API requests hand their
    outcome to the rest of the task; the counter increments and the error
    log append run under their locks.  Building and closing the client
    make no request and are taken not to raise. *)
Inductive prog (A : Type) : Type :=
| Ret (a : A)
| GetIamPolicy (resource : string) (k : outcome Iam.policy -> prog A)
| SetIamPolicy (resource : string) (body : Iam.policy)
               (k : outcome unit -> prog A)
| Incr (c : counter) (k : prog A)
| LogError (msg : string) (k : prog A).
Arguments Ret {A} a.
Arguments GetIamPolicy {A} resource k.
Arguments SetIamPolicy {A} resource body k.
Arguments Incr {A} c k.
Arguments LogError {A} msg k.

Fixpoint bind {A B : Type} (p : prog A) (f : A -> prog B) : prog B :=
  match p with
  | Ret a => f a
  | GetIamPolicy r k => GetIamPolicy r (fun x => bind (k x) f)
  | SetIamPolicy r b k => SetIamPolicy r b (fun x => bind (k x) f)
  | Incr c k => Incr c (bind k f)
  | LogError m k => LogError m (bind k f)
  end.

(** Statements inside a [try] block: a raised exception skips the rest. *)
Definition bind_try {A B : Type} (p : prog (outcome A))
    (f : A -> prog (outcome B)) : prog (outcome B) :=
  bind p (fun r => match r with
                   | Returned a => f a
                   | Raised ex => Ret (Raised ex)
                   end).

(** [try: body except Exception as ex: handler] *)
Definition try_except {A : Type} (body : prog (outcome A))
    (handler : string -> prog A) : prog A :=
  bind body (fun r => match r with
                      | Returned a => Ret a
                      | Raised ex => handler ex
                      end).

Notation "'let!' x ':=' p 'in' q" := (bind_try p (fun x => q))
  (at level 10, x name, p at level 100, q at level 200).

Definition return_ {A : Type} (a : A) : prog (outcome A) := Ret (Returned a).
Definition getIamPolicy (resource : string) : prog (outcome Iam.policy) :=
  GetIamPolicy resource Ret.
Definition setIamPolicy (resource : string) (body : Iam.policy)
  : prog (outcome unit) :=
  SetIamPolicy resource body Ret.
Definition increment (c : counter) : prog (outcome unit) :=
  Incr c (Ret (Returned tt)).
Definition never_raises {A : Type} (p : prog A) : prog (outcome A) :=
  bind p (fun a => Ret (Returned a)).
Definition evaluate {A : Type} (o : outcome A) : prog (outcome A) := Ret o.

(** [check_permission(project_id, member, role)]: [Some true], [Some false]
    or [None]. *)
Definition check_permission (project_id member role : string)
  : prog (option bool) :=
  try_except
    (let! policy := getIamPolicy project_id in
     return_ (Some (Iam.has_member (Iam.get_or_nil (Iam.bindings policy))
                                   member role)))
    (fun ex =>
       LogError ("Project: " +:+ project_id
                 +:+ " - Failed to check permissions: " +:+ ex)
                (Ret None)).

(** [has_permission is True] *)
Definition is_True (o : option bool) : bool :=
  match o with
  | Some true => true
  | _ => false
  end.

(** [grant_iam_permission(project_id, member, role)] *)
Definition grant_iam_permission (a : args) (project_id member role : string)
  : prog task_result :=
  try_except
    (let! has_permission :=
       never_raises (check_permission project_id member role) in
     if is_True has_permission then
       let! _ := increment AlreadyGranted in
       return_ (TaskResult project_id already_granted ("Already has " +:+ role))
     else if dry_run a || check_only a then
       return_ (TaskResult project_id would_grant ("Would grant " +:+ role))
     else
       let! policy := getIamPolicy project_id in
       let! policy := evaluate (Iam.add_binding policy member role) in
       let! _ := setIamPolicy project_id policy in
       let! _ := increment Success in
       return_ (TaskResult project_id granted
                           ("Successfully granted " +:+ role)))
    (fun ex =>
       Incr Failure
         (LogError ("Project: " +:+ project_id +:+ " - " +:+ ex)
            (Ret (TaskResult project_id failed ex)))).

(** *** The shared state and the atomic steps *)

(** The provider's policies, the module's global counters and error log,
    and the [setIamPolicy] requests sent so far (a ghost trace). *)
Record state : Type := State {
  policies : gmap string Iam.policy;
  success_count : nat;
  failure_count : nat;
  already_granted_count : nat;
  errors_log : list string;
  set_requests : list (string * Iam.policy)
}.

(** What the environment decides for one request: [Some ex] makes it
    raise [ex]. *)
Definition fault : Type := option string.

Definition api_get (f : fault) (resource : string) (st : state)
  : outcome Iam.policy :=
  match f with
  | Some ex => Raised ex
  | None =>
      match policies st !! resource with
      | Some p => Returned p
      | None => Raised "The caller does not have permission"
      end
  end.

(** A write that does not fail replaces the stored policy; a write that
    fails leaves the store as it is.  The request is recorded whether it
    fails or not. *)
Definition api_set (f : fault) (resource : string) (body : Iam.policy)
    (st : state) : outcome unit * state :=
  let st' := State (policies st) (success_count st) (failure_count st)
                   (already_granted_count st) (errors_log st)
                   (set_requests st ++ [(resource, body)]) in
  match f with
  | Some ex => (Raised ex, st')
  | None =>
      match policies st !! resource with
      | Some _ =>
          (Returned tt,
           State (<[resource := body]> (policies st)) (success_count st)
                 (failure_count st) (already_granted_count st) (errors_log st)
                 (set_requests st ++ [(resource, body)]))
      | None => (Raised "The caller does not have permission", st')
      end
  end.

Definition bump (c : counter) (st : state) : state :=
  match c with
  | Success =>
      State (policies st) (S (success_count st)) (failure_count st)
            (already_granted_count st) (errors_log st) (set_requests st)
  | Failure =>
      State (policies st) (success_count st) (S (failure_count st))
            (already_granted_count st) (errors_log st) (set_requests st)
  | AlreadyGranted =>
      State (policies st) (success_count st) (failure_count st)
            (S (already_granted_count st)) (errors_log st) (set_requests st)
  end.

(** [log_error(message)] *)
Definition log_error (msg : string) (st : state) : state :=
  State (policies st) (success_count st) (failure_count st)
        (already_granted_count st) (errors_log st ++ [msg]) (set_requests st).

(** One atomic effect of a task. *)
Definition step {A : Type} (f : fault) (p : prog A) (st : state)
  : prog A * state :=
  match p with
  | Ret a => (Ret a, st)
  | GetIamPolicy r k => (k (api_get f r st), st)
  | SetIamPolicy r b k => let (o, st') := api_set f r b st in (k o, st')
  | Incr c k => (k, bump c st)
  | LogError m k => (k, log_error m st)
  end.

Definition next_fault (fs : list fault) : fault :=
  match fs with
  | f :: _ => f
  | [] => None
  end.

(** A task run alone to its end; [fs] gives the fault of each request in
    turn, and no fault once it is exhausted. *)
Fixpoint run {A : Type} (p : prog A) (fs : list fault) (st : state)
  : A * state :=
  match p with
  | Ret a => (a, st)
  | GetIamPolicy r k => run (k (api_get (next_fault fs) r st)) (tail fs) st
  | SetIamPolicy r b k =>
      let (o, st') := api_set (next_fault fs) r b st in
      run (k o) (tail fs) st'
  | Incr c k => run k fs (bump c st)
  | LogError m k => run k fs (log_error m st)
  end.

(** *** The thread pool *)

(** The executor: the submitted projects not yet started, the tasks in a
    worker thread (with the project of their future), and the results in
    the order [as_completed] yields them. *)
Record pool : Type := Pool {
  pending : list string;
  running : list (string * prog task_result);
  completed : list task_result
}.

Section Pool.
Variables (a : args) (member role_ : string).

(** Free workers take the next submitted projects, first in first out. *)
Definition start_workers (pl : pool) : pool :=
  let free := Z.to_nat (max_workers a) - length (running pl) in
  Pool (drop free (pending pl))
       (running pl
        ++ map (fun pid => (pid, grant_iam_permission a pid member role_))
               (take free (pending pl)))
       (completed pl).

(** One step of the pool: the scheduler picks a running task, which does
    its next atomic effect; a task that has returned leaves the pool and
    its result is collected. *)
Definition pool_step (choice : nat * fault) (pl : pool) (st : state)
  : pool * state :=
  let pl := start_workers pl in
  let i := fst choice mod length (running pl) in
  match running pl !! i with
  | None => (pl, st)
  | Some (pid, p) =>
      let (p', st') := step (snd choice) p st in
      match p' with
      | Ret result =>
          (Pool (pending pl) (delete i (running pl))
                (completed pl ++ [result]), st')
      | _ =>
          (Pool (pending pl) (<[i := (pid, p')]> (running pl))
                (completed pl), st')
      end
  end.

Fixpoint run_pool (fuel : nat) (sched : nat -> nat * fault) (t : nat)
    (pl : pool) (st : state) : pool * state :=
  match fuel with
  | 0 => (pl, st)
  | S fuel' =>
      let (pl', st') := pool_step (sched t) pl st in
      run_pool fuel' sched (S t) pl' st'
  end.

(** [process_projects_parallel(projects, member, role)] under the
    schedule [sched]: all projects are submitted, then the pool runs.  A
    task has at most six atomic effects.  The value is the sequence of
    results the completion loop receives.  What the function prints is
    not part of the model; the error log file it writes before it
    returns is [write_errors] below, which [main] runs right after the
    pool. *)
Definition process_projects_parallel (sched : nat -> nat * fault)
    (projects : list string) (st : state) : pool * state :=
  run_pool (6 * length projects) sched 0 (Pool projects [] []) st.
End Pool.

(** *** The program *)

(** The lines written to the error log file. *)
Fixpoint errors_text (errors : list string) : string :=
  match errors with
  | [] => EmptyString
  | error :: rest => error +:+ String LF EmptyString +:+ errors_text rest
  end.

(** The end of [process_projects_parallel]: when errors were logged they
    are all written to [grant-access-errors.log], one a line.
    [can_write] tells whether the file can be opened for writing; the
    [open] is in no [try], and an exception that nothing catches ends the
    process with status 1. *)
Definition write_errors (can_write : bool) (st : state)
    (fs : gmap string string) : completion (gmap string string) :=
  match errors_log st with
  | [] => Continue fs
  | _ :: _ =>
      if can_write then
        Continue (<["grant-access-errors.log"
                    := errors_text (errors_log st)]> fs)
      else Exit 1
  end.

(** What the run finds around it; [can_write] tells which files can be
    opened for writing. *)
Record environment : Type := Environment {
  credentials : option credential;
  userinfo : outcome (option string);
  project_listing : Listing.listing;
  files : gmap string string;
  answer : string;
  schedule : nat -> nat * fault;
  can_write : string -> bool
}.

(** How a run ends: the exit status of the process, the provider's
    policies with the module's globals, and the files. *)
Record finish : Type := Finish {
  exit_status : Z;
  final_state : state;
  final_files : gmap string string
}.

(** [main()], with the whole of [process_projects_parallel]: the pool,
    then the error log file. *)
Definition main (a : args) (cred : credential) (env : environment)
    (st : state) : finish :=
  match get_member_identifier a cred (userinfo env) with
  | Exit code => Finish code st (files env)
  | Continue member =>
      match (if all_projects a then get_all_projects (project_listing env)
             else get_projects_from_file (files env) (projects_file a)) with
      | Exit code => Finish code st (files env)
      | Continue [] => Finish 1 st (files env)
      | Continue projects =>
          if negb (dry_run a) && negb (check_only a)
             && negb (String.eqb (Py.lower (answer env)) "yes")
          then Finish 0 st (files env)
          else
            let (_, st') :=
              process_projects_parallel a member (role a) (schedule env)
                                        projects st in
            match write_errors (can_write env "grant-access-errors.log")
                               st' (files env) with
            | Exit code => Finish code st' (files env)
            | Continue fs' => Finish 0 st' fs'
            end
      end
  end.

(** The module from its first line: the range check of [--max-workers],
    the credential lookup, the zeroed globals, then [main()]. *)
Definition script (a : args) (env : environment)
    (iam : gmap string Iam.policy) : finish :=
  let st := State iam 0 0 0 [] [] in
  if (max_workers a <? 1)%Z || (1000 <? max_workers a)%Z
  then Finish 1 st (files env)
  else
    match credentials env with
    | None => Finish 1 st (files env)
    | Some cred => main a cred env st
    end.

(** *** Contracts of worker tasks *)

(** Counter increments, by counter. *)
Record tally : Type := Tally {
  t_success : nat;
  t_failure : nat;
  t_already : nat
}.

Definition tally_zero : tally := Tally 0 0 0.

Definition tally_add (x y : tally) : tally :=
  Tally (t_success x + t_success y) (t_failure x + t_failure y)
        (t_already x + t_already y).

Definition tally_of_counter (c : counter) : tally :=
  match c with
  | Success => Tally 1 0 0
  | Failure => Tally 0 1 0
  | AlreadyGranted => Tally 0 0 1
  end.

(** The increments a task of this status makes. *)
Definition tally_of_status (s : task_status) : tally :=
  match s with
  | granted => Tally 1 0 0
  | failed => Tally 0 1 0
  | already_granted => Tally 0 0 1
  | would_grant => Tally 0 0 0
  end.

Definition tally_of_state (st : state) : tally :=
  Tally (success_count st) (failure_count st) (already_granted_count st).

Fixpoint tally_of_results (rs : list task_result) : tally :=
  match rs with
  | [] => tally_zero
  | r :: rest => tally_add (tally_of_status (status r)) (tally_of_results rest)
  end.

(** [task_ok pid writes n done p]: whatever the requests answer, the task
    [p] for project [pid] returns within [n] atomic effects, the result is
    for [pid], the increments made before ([done]) and by [p] are those of
    the status returned, and [p] sends a write or returns [granted] only
    when [writes] holds. *)
Inductive task_ok (pid : string) (writes : bool)
  : nat -> tally -> prog task_result -> Prop :=
| ok_ret n done r :
    project_id r = pid ->
    done = tally_of_status (status r) ->
    (status r = granted -> writes = true) ->
    task_ok pid writes n done (Ret r)
| ok_get n done resource k :
    (forall o, task_ok pid writes n done (k o)) ->
    task_ok pid writes (S n) done (GetIamPolicy resource k)
| ok_set n done resource body k :
    writes = true ->
    (forall o, task_ok pid writes n done (k o)) ->
    task_ok pid writes (S n) done (SetIamPolicy resource body k)
| ok_incr n done c k :
    task_ok pid writes n (tally_add done (tally_of_counter c)) k ->
    task_ok pid writes (S n) done (Incr c k)
| ok_log n done msg k :
    task_ok pid writes n done k ->
    task_ok pid writes (S n) done (LogError msg k).

Definition is_ret {A : Type} (p : prog A) : bool :=
  match p with
  | Ret _ => true
  | _ => false
  end.

(** The running tasks of a pool keep their contracts: [steps] bounds the
    effects they still have, [done] sums the increments they have made. *)
Inductive running_ok (writes : bool)
  : list (string * prog task_result) -> nat -> tally -> Prop :=
| running_nil : running_ok writes [] 0 tally_zero
| running_cons pid p n d rest steps done :
    task_ok pid writes n d p ->
    is_ret p = false ->
    running_ok writes rest steps done ->
    running_ok writes ((pid, p) :: rest) (n + steps) (tally_add d done).

(** How many results have a given status. *)
Definition status_eqb (x y : task_status) : bool :=
  match x, y with
  | granted, granted | already_granted, already_granted
  | would_grant, would_grant | failed, failed => true
  | _, _ => false
  end.

Fixpoint count_status (s : task_status) (rs : list task_result) : nat :=
  match rs with
  | [] => 0
  | r :: rest =>
      (if status_eqb (status r) s then 1 else 0) + count_status s rest
  end.

(** Writes are sent only outside the dry-run and check-only modes. *)
Definition writes_enabled (a : args) : bool :=
  negb (dry_run a || check_only a).

(** The pool has nothing left to run. *)
Definition finished (pl : pool) : Prop :=
  pending pl = [] /\ running pl = [].

(** What holds of the pool and the shared state at every step of a run
    over [projects] that started in state [st0]: the running tasks keep
    their contracts and, with the projects still pending, need at most
    [budget] more steps; the counters are those of [st0] plus the
    increments of the collected results and of the running tasks; every
    project is pending, running or has its result collected; and when
    writes are off, the policies and the write requests are those of
    [st0] and no collected result is [granted]. *)
Record pool_inv (writes : bool) (projects : list string) (st0 : state)
    (budget : nat) (pl : pool) (st : state) : Prop := PoolInv {
  inv_running :
    exists steps done,
      running_ok writes (running pl) steps done
      /\ steps + 6 * length (pending pl) <= budget
      /\ tally_of_state st
         = tally_add (tally_of_state st0)
                     (tally_add (tally_of_results (completed pl)) done);
  inv_projects :
    map project_id (completed pl) ++ map fst (running pl) ++ pending pl
    ≡ₚ projects;
  inv_store :
    writes = false ->
    policies st = policies st0 /\ set_requests st = set_requests st0;
  inv_granted :
    writes = false -> count_status granted (completed pl) = 0
}.

End Granter.

(** ** Notions the properties are stated with *)

Module Spec.

(** Every character is white space. *)
Fixpoint all_space (s : string) : bool :=
  match s with
  | EmptyString => true
  | String c r => Py.isspace c && all_space r
  end.

(** The string starts with white space. *)
Definition head_space (s : string) : bool :=
  match s with
  | EmptyString => false
  | String c _ => Py.isspace c
  end.

(** The string ends with white space. *)
Fixpoint last_space (s : string) : bool :=
  match s with
  | EmptyString => false
  | String c EmptyString => Py.isspace c
  | String _ r => last_space r
  end.

(** A comment line: its first character after the indentation is [#]. *)
Definition is_comment_line (line : string) : bool :=
  match Py.lstrip line with
  | String c _ => Ascii.eqb c "#"
  | EmptyString => false
  end.

(** The project list of a file as the specification words it: blank lines
    and comment lines are ignored, the other lines are trimmed. *)
Definition projects_of_lines (lines : list string) : list string :=
  map Py.strip
      (List.filter (fun l => negb (all_space l) && negb (is_comment_line l))
                   lines).

(** The project resources of all the pages of a listing, in order. *)
Fixpoint resources (l : Listing.listing) : list Listing.project_resource :=
  match l with
  | Listing.Failure _ => []
  | Listing.LastPage page => Iam.get_or_nil page
  | Listing.MorePages page _ next => Iam.get_or_nil page ++ resources next
  end.

(** Some request of the listing raises. *)
Fixpoint fails (l : Listing.listing) : bool :=
  match l with
  | Listing.Failure _ => true
  | Listing.LastPage _ => false
  | Listing.MorePages _ _ next => fails next
  end.

Definition is_active (p : Listing.project_resource) : bool :=
  String.eqb (Listing.lifecycleState p) "ACTIVE".

(** The identifiers of the active projects of a listing, in listing order. *)
Definition active_ids (l : Listing.listing) : list string :=
  map Listing.projectId (List.filter is_active (resources l)).

(** Order of the keys, as [sorted(..., key=key)] compares them. *)
Definition key_le {A : Type} (key : A -> string) (x y : A) : Prop :=
  String.le (key x) (key y).

(** How many bindings of a policy are for the role. *)
Definition role_entries (bs : list Iam.binding) (role_ : string) : nat :=
  length (List.filter (fun b => String.eqb (Iam.role b) role_) bs).

(** How often the first binding of the role lists the member (0 when no
    binding is for the role). *)
Definition target_entries (bs : list Iam.binding) (member role_ : string)
  : nat :=
  match List.find (fun b => String.eqb (Iam.role b) role_) bs with
  | Some b => count_occ string_dec (Iam.get_or_nil (Iam.members b)) member
  | None => 0
  end.

(** The filter's rule for one project, for patterns that compile. *)
Definition found (re_search : string -> string -> outcome bool)
    (pattern : option string) (s : string) : bool :=
  Py.truthy pattern &&
  match re_search (Py.to_str pattern) s with
  | Returned b => b
  | Raised _ => false
  end.

Definition keeps (re_search : string -> string -> outcome bool)
    (include_pattern exclude_pattern : option string) (p : Lister.project)
  : bool :=
  negb (found re_search exclude_pattern (Lister.id p))
  && (negb (Py.truthy include_pattern)
      || found re_search include_pattern (Lister.id p)).

(** The pattern compiles: searching with it does not raise. *)
Definition compiles (re_search : string -> string -> outcome bool)
    (pattern : option string) : Prop :=
  Py.truthy pattern = true ->
  forall s, exists b, re_search (Py.to_str pattern) s = Returned b.


End Spec.

(** ** list-projects.py: the program *)

Module ListerMain.

(** The parsed command line of the lister. *)
Record args : Type := Args {
  output_file : string;
  exclude_pattern : option string;
  include_pattern : option string;
  show_stats : bool;
  preview_only : bool
}.

(** What a run of the lister finds around it: whether the ambient
    credential resolves, what the listing endpoint answers, and which
    files can be opened for writing. *)
Record environment : Type := Environment {
  credentials : bool;
  project_listing : Listing.listing;
  can_write : string -> bool
}.

Definition newline : string := String Granter.LF EmptyString.

(** [s.replace(old, new)] for a non-empty [old]: the occurrences of [old]
    are replaced from left to right; [skip] counts the characters of a
    replaced occurrence still to pass over. *)
Fixpoint replace_from (old new s : string) (skip : nat) : string :=
  match s with
  | EmptyString => EmptyString
  | String c r =>
      match skip with
      | S k => replace_from old new r k
      | 0 =>
          if Lister.is_prefix old s then
            new +:+ replace_from old new r (String.length old - 1)
          else String c (replace_from old new r 0)
      end
  end.

Definition replace (s old new : string) : string := replace_from old new s 0.

(** [show_statistics(all_projects, filtered_projects, excluded_projects)]:
    what it prints is not modelled; the reduction percentage divides by
    the number of projects found. *)
Definition show_statistics (all_projects filtered_projects
    excluded_projects : list Lister.project) : outcome unit :=
  match all_projects with
  | [] => Raised "division by zero"
  | _ :: _ => Returned tt
  end.

(** The text written to the output file: one identifier per line. *)
Fixpoint ids_text (projects : list Lister.project) : string :=
  match projects with
  | [] => EmptyString
  | proj :: rest => Lister.id proj +:+ newline +:+ ids_text rest
  end.

(** The rows of the detailed file. *)
Fixpoint detailed_rows (projects : list Lister.project) : string :=
  match projects with
  | [] => EmptyString
  | proj :: rest =>
      Lister.id proj +:+ "," +:+ Lister.name proj +:+ ","
      +:+ Lister.number proj +:+ newline +:+ detailed_rows rest
  end.

Definition detailed_text (projects : list Lister.project) : string :=
  "PROJECT_ID,PROJECT_NAME,PROJECT_NUMBER" +:+ newline
  +:+ detailed_rows projects.

Section Main.
Variable re_search : string -> string -> outcome bool.

(** [main()]: the exit status and the files after the run.  An exception
    that nothing catches ends the process with status 1. *)
Definition main (a : args) (env : environment) (fs : gmap string string)
  : Z * gmap string string :=
  match Lister.get_all_projects (credentials env) (project_listing env) with
  | Exit code => (code, fs)
  | Continue all_projects =>
      match Lister.filter_projects re_search all_projects
              (include_pattern a) (exclude_pattern a) with
      | Raised _ => (1%Z, fs)
      | Returned (filtered_projects, excluded_projects) =>
          match (if show_stats a
                 then show_statistics all_projects filtered_projects
                                      excluded_projects
                 else Returned tt) with
          | Raised _ => (1%Z, fs)
          | Returned _ =>
              if preview_only a then (0%Z, fs)
              else if can_write env (output_file a) then
                let fs1 :=
                  <[output_file a := ids_text filtered_projects]> fs in
                let detailed_file :=
                  replace (output_file a) ".txt" "-detailed.txt" in
                if can_write env detailed_file then
                  (0%Z,
                   <[detailed_file := detailed_text filtered_projects]> fs1)
                else (1%Z, fs1)
              else (1%Z, fs)
          end
      end
  end.
End Main.

(** The record the lister keeps of a project resource. *)
Definition to_project (p : Listing.project_resource) : Lister.project :=
  Lister.Project (Listing.projectId p)
                 (Lister.get_default (Listing.name p) "UNNAMED")
                 (Lister.get_default (Listing.projectNumber p) "N/A").

(** No character of the string ends a line. *)
Fixpoint one_line (s : string) : bool :=
  match s with
  | EmptyString => true
  | String c r =>
      negb (Ascii.eqb c Granter.LF) && negb (Ascii.eqb c Granter.CR)
      && one_line r
  end.

(** An identifier that a line of a file holds as it is: not empty, on one
    line, with no white space at either end. *)
Definition clean (s : string) : bool :=
  Py.nonempty s && one_line s
  && negb (Spec.head_space s) && negb (Spec.last_space s).

End ListerMain.

(** ** Tasks and the projects they touch *)

Module Isolation.

(** Every request of the task addresses the project [pid]. *)
Inductive footprint {A : Type} (pid : string) : Granter.prog A -> Prop :=
| fp_ret a : footprint pid (Granter.Ret a)
| fp_get k :
    (forall o, footprint pid (k o)) ->
    footprint pid (Granter.GetIamPolicy pid k)
| fp_set body k :
    (forall o, footprint pid (k o)) ->
    footprint pid (Granter.SetIamPolicy pid body k)
| fp_incr c k : footprint pid k -> footprint pid (Granter.Incr c k)
| fp_log msg k : footprint pid k -> footprint pid (Granter.LogError msg k).

(** What a task run to its end from [st] under the faults [fs] gives for
    the project [pid]: its result and the policy it leaves stored. *)
Definition outcome_of {A : Type} (p : Granter.prog A) (fs : list Granter.fault)
    (st : Granter.state) (pid : string) : A * option Iam.policy :=
  (fst (Granter.run p fs st),
   Granter.policies (snd (Granter.run p fs st)) !! pid).

(** The grant operation for [pid] run alone. *)
Definition alone (a : Granter.args) (member role_ : string)
    (st : Granter.state) (pid : string) (fs : list Granter.fault)
  : Granter.task_result * option Iam.policy :=
  outcome_of (Granter.grant_iam_permission a pid member role_) fs st pid.

(** The pool and the state after the running task [i], which is [p] for
    the project [pid], has done its next effect: the second half of
    [pool_step]. *)
Definition picked (f : Granter.fault) (pl : Granter.pool)
    (st : Granter.state) (i : nat) (pid : string)
    (p : Granter.prog Granter.task_result) : Granter.pool * Granter.state :=
  let (p', st') := Granter.step f p st in
  match p' with
  | Granter.Ret result =>
      (Granter.Pool (Granter.pending pl) (delete i (Granter.running pl))
                    (Granter.completed pl ++ [result]), st')
  | _ =>
      (Granter.Pool (Granter.pending pl)
                    (<[i := (pid, p')]> (Granter.running pl))
                    (Granter.completed pl), st')
  end.

Section Invariants.
Variables (a : Granter.args) (member role_ : string).
Variable allowed : Granter.fault -> Prop.
Variable st0 : Granter.state.

(** However the task [p] of project [pid] goes on from [st] under allowed
    faults, it ends as the grant operation run alone from [st0] ends under
    some allowed faults. *)
Definition continues (pid : string) (p : Granter.prog Granter.task_result)
    (st : Granter.state) : Prop :=
  forall fs', Forall allowed fs' ->
    exists fs, Forall allowed fs
               /\ outcome_of p fs' st pid = alone a member role_ st0 pid fs.

(** The collected result [r] and the policy stored for its project are
    those of the grant operation run alone from [st0] under some allowed
    faults. *)
Definition settled (r : Granter.task_result) (st : Granter.state) : Prop :=
  exists fs, Forall allowed fs
             /\ (r, Granter.policies st !! Granter.project_id r)
                = alone a member role_ st0 (Granter.project_id r) fs.

(** The pool over distinct projects: each running task touches its own
    project only and [continues]; each collected result is [settled]; a
    pending project has the policy it had in [st0]. *)
Record linear (pl : Granter.pool) (st : Granter.state) : Prop := Linear {
  lin_running :
    Forall (fun t => footprint (fst t) (snd t)
                     /\ continues (fst t) (snd t) st)
           (Granter.running pl);
  lin_completed : Forall (fun r => settled r st) (Granter.completed pl);
  lin_pending :
    Forall (fun pid => Granter.policies st !! pid
                       = Granter.policies st0 !! pid)
           (Granter.pending pl);
  lin_distinct :
    NoDup (map Granter.project_id (Granter.completed pl)
           ++ map fst (Granter.running pl) ++ Granter.pending pl)
}.

(** The pool over [projects]: the running and the pending projects are
    among them, the policies of all other projects are those of [st0],
    and every write sent since [st0] addresses one of them. *)
Record framed (projects : list string) (pl : Granter.pool)
    (st : Granter.state) : Prop := Framed {
  fr_running :
    Forall (fun t => fst t ∈ projects /\ footprint (fst t) (snd t))
           (Granter.running pl);
  fr_pending : Forall (fun pid => pid ∈ projects) (Granter.pending pl);
  fr_store :
    forall q, q ∉ projects ->
              Granter.policies st !! q = Granter.policies st0 !! q;
  fr_requests :
    exists sent,
      Granter.set_requests st = Granter.set_requests st0 ++ sent
      /\ Forall (fun w => fst w ∈ projects) sent
}.
End Invariants.

End Isolation.

(** ** The error log *)

Module ErrorLog.

(** The entry the failure handler of [grant_iam_permission] logs for the
    result it returns. *)
Definition failure_entry (r : Granter.task_result) : string :=
  "Project: " +:+ Granter.project_id r +:+ " - " +:+ Granter.message r.

(** [logs_ok mine p]: the task has logged the entries [mine] so far, and
    however [p] goes on, a [failed] result is returned only after its
    entry is logged. *)
Inductive logs_ok : list string -> Granter.prog Granter.task_result -> Prop :=
| lo_ret mine r :
    (Granter.status r = Granter.failed -> failure_entry r ∈ mine) ->
    logs_ok mine (Granter.Ret r)
| lo_get mine res k :
    (forall o, logs_ok mine (k o)) ->
    logs_ok mine (Granter.GetIamPolicy res k)
| lo_set mine res body k :
    (forall o, logs_ok mine (k o)) ->
    logs_ok mine (Granter.SetIamPolicy res body k)
| lo_incr mine c k : logs_ok mine k -> logs_ok mine (Granter.Incr c k)
| lo_log mine msg k :
    logs_ok (msg :: mine) k -> logs_ok mine (Granter.LogError msg k).

(** The pool: what each running task has logged is in the error log, and
    so is the entry of every collected [failed] result. *)
Record logged (pl : Granter.pool) (st : Granter.state) : Prop := Logged {
  lg_running :
    Forall (fun t => exists mine,
                logs_ok mine (snd t)
                /\ Forall (fun m => m ∈ Granter.errors_log st) mine)
           (Granter.running pl);
  lg_completed :
    Forall (fun r => Granter.status r = Granter.failed ->
                     failure_entry r ∈ Granter.errors_log st)
           (Granter.completed pl)
}.

End ErrorLog.

(** * Properties *)

(** ** Strings *)

Lemma append_cons (c : ascii) (l r : string) :
  (String c l +:+ r) = String c (l +:+ r).
Proof. reflexivity. Qed.

Lemma append_empty (r : string) : (EmptyString +:+ r) = r.
Proof. reflexivity. Qed.

Lemma lstrip_split (s : string) :
  exists l, s = (l +:+ Py.lstrip s) /\ Spec.all_space l = true.
Proof.
  induction s as [|c r IH]; simpl.
  - exists EmptyString. split; reflexivity.
  - destruct (Py.isspace c) eqn:Hc.
    + destruct IH as (l & Heq & Hl). exists (String c l). split.
      * rewrite append_cons. f_equal. exact Heq.
      * simpl. rewrite Hc. exact Hl.
    + exists EmptyString. split; reflexivity.
Qed.

Lemma lstrip_head (s : string) : Spec.head_space (Py.lstrip s) = false.
Proof.
  induction s as [|c r IH]; simpl; [reflexivity|].
  destruct (Py.isspace c) eqn:Hc; [exact IH|]. simpl. exact Hc.
Qed.

Lemma rstrip_split (s : string) :
  exists r, s = (Py.rstrip s +:+ r) /\ Spec.all_space r = true.
Proof.
  induction s as [|c t IH]; simpl.
  - exists EmptyString. split; reflexivity.
  - destruct IH as (r & Heq & Hr).
    destruct (Py.rstrip t) as [|c' t'] eqn:Ht.
    + rewrite append_empty in Heq. subst r.
      destruct (Py.isspace c) eqn:Hc.
      * exists (String c t). split; [reflexivity|].
        simpl. rewrite Hc. exact Hr.
      * exists t. split; [reflexivity|exact Hr].
    + exists r. split; [|exact Hr]. rewrite append_cons. f_equal. exact Heq.
Qed.

Lemma rstrip_last (s : string) : Spec.last_space (Py.rstrip s) = false.
Proof.
  induction s as [|c t IH]; simpl; [reflexivity|].
  destruct (Py.rstrip t) as [|c' t'] eqn:Ht.
  - destruct (Py.isspace c) eqn:Hc; simpl; [reflexivity|exact Hc].
  - simpl in IH |- *. exact IH.
Qed.

Lemma rstrip_head (s : string) :
  Spec.head_space s = false -> Spec.head_space (Py.rstrip s) = false.
Proof.
  destruct s as [|c t]; simpl; [reflexivity|]. intros Hc.
  destruct (Py.rstrip t); [rewrite Hc|]; simpl; exact Hc.
Qed.

Lemma rstrip_empty (s : string) :
  Py.rstrip s = EmptyString <-> Spec.all_space s = true.
Proof.
  induction s as [|c t IH]; simpl; [tauto|].
  destruct (Py.rstrip t) as [|c' t'] eqn:Ht.
  - destruct (Py.isspace c); simpl; [|split; discriminate].
    split; intros _; [apply IH|]; reflexivity.
  - split; [discriminate|]. intros H. apply andb_true_iff in H as [_ H].
    apply IH in H. discriminate.
Qed.

Lemma all_space_app (l r : string) :
  Spec.all_space (l +:+ r) = Spec.all_space l && Spec.all_space r.
Proof.
  induction l as [|c l IH]; [reflexivity|].
  rewrite append_cons. simpl. rewrite IH. apply andb_assoc.
Qed.

(** [strip] removes a run of white space at each end and nothing else. *)
Lemma strip_spec (s : string) :
  exists l r,
    s = (l +:+ Py.strip s +:+ r)
    /\ Spec.all_space l = true /\ Spec.all_space r = true
    /\ Spec.head_space (Py.strip s) = false
    /\ Spec.last_space (Py.strip s) = false.
Proof.
  destruct (lstrip_split s) as (l & Hl & Hls).
  destruct (rstrip_split (Py.lstrip s)) as (r & Hr & Hrs).
  exists l, r. unfold Py.strip. repeat split; auto.
  - rewrite <- Hr. exact Hl.
  - apply rstrip_head, lstrip_head.
  - apply rstrip_last.
Qed.

(** A line is dropped exactly when it is blank. *)
Lemma strip_empty (s : string) :
  Py.nonempty (Py.strip s) = negb (Spec.all_space s).
Proof.
  unfold Py.strip.
  destruct (lstrip_split s) as (l & Hl & Hls).
  assert (Spec.all_space s = Spec.all_space (Py.lstrip s)) as ->.
  { rewrite Hl at 1. rewrite all_space_app, Hls. reflexivity. }
  destruct (Py.rstrip (Py.lstrip s)) eqn:E; simpl.
  - apply rstrip_empty in E. rewrite E. reflexivity.
  - destruct (Spec.all_space (Py.lstrip s)) eqn:F; [|reflexivity].
    apply rstrip_empty in F. congruence.
Qed.

(** ** Sorting *)

Section SortedFacts.
Context {A : Type} (key : A -> string).

Lemma insert_sorted_perm (x : A) (l : list A) :
  Py.insert_sorted key x l ≡ₚ x :: l.
Proof.
  induction l as [|y r IH]; simpl; [reflexivity|].
  destruct (String.leb (key x) (key y)); [reflexivity|].
  rewrite IH. apply Permutation_swap.
Qed.

Lemma sorted_perm (l : list A) : Py.sorted key l ≡ₚ l.
Proof.
  induction l as [|x r IH]; simpl; [reflexivity|].
  rewrite insert_sorted_perm, IH. reflexivity.
Qed.

Lemma insert_sorted_HdRel (a x : A) (l : list A) :
  Spec.key_le key a x -> HdRel (Spec.key_le key) a l ->
  HdRel (Spec.key_le key) a (Py.insert_sorted key x l).
Proof.
  intros Hax Hal. destruct l as [|y r]; simpl.
  - constructor. exact Hax.
  - destruct (String.leb (key x) (key y)); constructor; [exact Hax|].
    inversion Hal; assumption.
Qed.

Lemma insert_sorted_Sorted (x : A) (l : list A) :
  Sorted (Spec.key_le key) l ->
  Sorted (Spec.key_le key) (Py.insert_sorted key x l).
Proof.
  induction l as [|y r IH]; simpl; intros Hs.
  - repeat constructor.
  - destruct (String.leb (key x) (key y)) eqn:E.
    + constructor; [exact Hs|]. constructor. unfold Spec.key_le, String.le.
      rewrite E. exact I.
    + inversion Hs as [|? ? Hr Hy]; subst. constructor; [apply IH, Hr|].
      apply insert_sorted_HdRel; [|exact Hy].
      unfold Spec.key_le, String.le.
      destruct (String.leb_total (key x) (key y)) as [H|H];
        [congruence|rewrite H; exact I].
Qed.

Lemma sorted_Sorted (l : list A) :
  Sorted (Spec.key_le key) (Py.sorted key l).
Proof.
  induction l as [|x r IH]; simpl; [constructor|].
  apply insert_sorted_Sorted, IH.
Qed.

Lemma Sorted_key_map (l : list A) :
  Sorted (Spec.key_le key) l -> Sorted String.le (map key l).
Proof.
  induction 1 as [|x l Hs IH Hd]; simpl; constructor; [exact IH|].
  destruct Hd; simpl; constructor. assumption.
Qed.
End SortedFacts.

(** ** The project enumerators *)

Lemma granter_append_active (page : list Listing.project_resource)
    (acc : list string) :
  Granter.append_active page acc
  = acc ++ map Listing.projectId (List.filter Spec.is_active page).
Proof.
  revert acc. induction page as [|p rest IH]; intros acc; simpl.
  - symmetry. apply app_nil_r.
  - unfold Spec.is_active at 1.
    destruct (String.eqb (Listing.lifecycleState p) "ACTIVE"); rewrite IH.
    + simpl. rewrite <- app_assoc. reflexivity.
    + reflexivity.
Qed.

Lemma granter_fetch_pages (l : Listing.listing) (acc : list string) :
  if Spec.fails l then exists ex, Granter.fetch_pages l acc = Raised ex
  else Granter.fetch_pages l acc = Returned (acc ++ Spec.active_ids l).
Proof.
  revert acc. unfold Spec.active_ids.
  induction l as [page|page tok next IH|ex]; intros acc; simpl.
  - rewrite granter_append_active. reflexivity.
  - specialize (IH (Granter.append_active (Iam.get_or_nil page) acc)).
    destruct (Spec.fails next); [exact IH|]. rewrite IH.
    rewrite granter_append_active, List.filter_app, map_app, <- app_assoc.
    reflexivity.
  - exists ex. reflexivity.
Qed.

Lemma lister_append_active (page : list Listing.project_resource)
    (acc : list Lister.project) :
  map Lister.id (Lister.append_active page acc)
  = map Lister.id acc
    ++ map Listing.projectId (List.filter Spec.is_active page).
Proof.
  revert acc. induction page as [|p rest IH]; intros acc; simpl.
  - symmetry. apply app_nil_r.
  - unfold Spec.is_active at 1.
    destruct (String.eqb (Listing.lifecycleState p) "ACTIVE"); rewrite IH.
    + rewrite map_app. simpl. rewrite <- app_assoc. reflexivity.
    + reflexivity.
Qed.

Lemma lister_fetch_pages (l : Listing.listing) (acc : list Lister.project) :
  if Spec.fails l then exists ex, Lister.fetch_pages l acc = Raised ex
  else exists ps, Lister.fetch_pages l acc = Returned ps
                  /\ map Lister.id ps = map Lister.id acc ++ Spec.active_ids l.
Proof.
  revert acc. unfold Spec.active_ids.
  induction l as [page|page tok next IH|ex]; intros acc; simpl.
  - eexists. split; [reflexivity|]. apply lister_append_active.
  - specialize (IH (Lister.append_active (Iam.get_or_nil page) acc)).
    destruct (Spec.fails next); [exact IH|]. destruct IH as (ps & -> & Hps).
    exists ps. split; [reflexivity|]. rewrite Hps, lister_append_active.
    rewrite List.filter_app, map_app, <- app_assoc. reflexivity.
  - exists ex. reflexivity.
Qed.

Lemma read_lines_spec (lines : list string) (acc : list string) :
  Granter.read_lines lines acc
  = acc ++ map Py.strip
             (List.filter (fun l => negb (Spec.all_space l)) lines).
Proof.
  revert acc. induction lines as [|line rest IH]; intros acc; simpl.
  - symmetry. apply app_nil_r.
  - rewrite strip_empty. destruct (Spec.all_space line); simpl; rewrite IH.
    + reflexivity.
    + rewrite <- app_assoc. reflexivity.
Qed.

(** C3, as amended.  The granter's remote enumerator exits with status 1
    when a listing request fails and otherwise returns the identifiers of
    the active projects of all pages, sorted lexicographically; the lister's
    does the same for its project records, by identifier.  Neither removes
    repetitions: the result has none exactly when the listing has none.  The
    file reader returns the trimmed non-blank lines in file order, neither
    sorted nor deduplicated. *)
Theorem enumerators_sorted_not_deduplicated
    (l : Listing.listing) (fs : gmap string string)
    (filename content : string) :
  (if Spec.fails l then Granter.get_all_projects l = Exit 1%Z
   else exists ps, Granter.get_all_projects l = Continue ps
                   /\ Sorted String.le ps
                   /\ ps ≡ₚ Spec.active_ids l
                   /\ (NoDup ps <-> NoDup (Spec.active_ids l)))
  /\ (if Spec.fails l then Lister.get_all_projects true l = Exit 1%Z
      else exists ps, Lister.get_all_projects true l = Continue ps
                      /\ Sorted String.le (map Lister.id ps)
                      /\ map Lister.id ps ≡ₚ Spec.active_ids l
                      /\ (NoDup (map Lister.id ps)
                          <-> NoDup (Spec.active_ids l)))
  /\ Granter.get_projects_from_file (<[filename := content]> fs) filename
     = Continue (map Py.strip
                   (List.filter (fun line => negb (Spec.all_space line))
                                (Granter.file_lines content))).
Proof.
  split; [|split].
  - unfold Granter.get_all_projects.
    pose proof (granter_fetch_pages l []) as H.
    destruct (Spec.fails l).
    + destruct H as (ex & ->). reflexivity.
    + rewrite H. simpl. eexists. split; [reflexivity|].
      assert (Py.sorted (fun p => p) (Spec.active_ids l)
              ≡ₚ Spec.active_ids l)
        as Hp by apply sorted_perm.
      split; [|split; [exact Hp|]].
      * pose proof (sorted_Sorted (fun p : string => p) (Spec.active_ids l))
          as Hs.
        apply Sorted_key_map in Hs. rewrite List.map_id in Hs. exact Hs.
      * split; intros Hn; [rewrite <- Hp|rewrite Hp]; exact Hn.
  - unfold Lister.get_all_projects.
    pose proof (lister_fetch_pages l []) as H.
    destruct (Spec.fails l).
    + destruct H as (ex & ->). reflexivity.
    + destruct H as (ps & -> & Hps). simpl in Hps. eexists.
      split; [reflexivity|].
      assert (map Lister.id (Py.sorted Lister.id ps) ≡ₚ Spec.active_ids l)
        as Hp.
      { rewrite <- Hps. apply Permutation_map, sorted_perm. }
      split; [|split; [exact Hp|]].
      * apply Sorted_key_map, sorted_Sorted.
      * split; intros Hn; [rewrite <- Hp|rewrite Hp]; exact Hn.
  - unfold Granter.get_projects_from_file. rewrite lookup_insert_eq.
    rewrite read_lines_spec. reflexivity.
Qed.

(** C3, counterexample: a project file whose lines are out of order and
    repeat an identifier is returned as it is, neither sorted nor
    deduplicated. *)
Lemma file_enumerator_unsorted_with_duplicates :
  Granter.get_projects_from_file
    {[ "projects.txt" := "proj-b
proj-a
proj-b
" ]} "projects.txt"
  = Continue ["proj-b"; "proj-a"; "proj-b"]
  /\ ~ Sorted String.le ["proj-b"; "proj-a"; "proj-b"]
  /\ ~ NoDup ["proj-b"; "proj-a"; "proj-b"].
Proof.
  split; [vm_compute; reflexivity|]. split.
  - intros H. inversion H as [|? ? _ Hd]; subst.
    inversion Hd as [|? ? Hle]; subst. vm_compute in Hle. exact Hle.
  - intros H. inversion H as [|? ? Hn _]; subst. apply Hn.
    right. left.
Qed.

(** C4, as amended.  Reading the project list drops exactly the blank
    lines (empty or white space only) and returns every other line trimmed
    of the white space around it, in file order; a comment line is kept
    like any other line.  A file with the lines [proj-a], an empty line and
    [proj-b] yields [proj-a] and [proj-b]; a file that does not exist ends
    the run with status 1. *)
Theorem file_reader_trims_and_skips_blank_lines
    (fs : gmap string string) (filename content : string) :
  let projects :=
    map Py.strip (List.filter (fun line => negb (Spec.all_space line))
                              (Granter.file_lines content)) in
  Granter.get_projects_from_file (<[filename := content]> fs) filename
  = Continue projects
  /\ Forall (fun p => Py.nonempty p = true
                      /\ Spec.head_space p = false
                      /\ Spec.last_space p = false) projects
  /\ Granter.get_projects_from_file (delete filename fs) filename = Exit 1%Z
  /\ Granter.get_projects_from_file
       (<[filename := "proj-a

proj-b
"]> fs) filename
     = Continue ["proj-a"; "proj-b"].
Proof.
  cbv zeta. split; [|split; [|split]].
  - unfold Granter.get_projects_from_file. rewrite lookup_insert_eq.
    rewrite read_lines_spec. reflexivity.
  - apply List.Forall_forall. intros p Hp.
    apply List.in_map_iff in Hp as (line & <- & Hin).
    apply List.filter_In in Hin as [_ Hblank].
    rewrite strip_empty. split; [exact Hblank|].
    destruct (strip_spec line) as (l & r & _ & _ & _ & Hh & Hl). auto.
  - unfold Granter.get_projects_from_file. rewrite lookup_delete_eq.
    reflexivity.
  - unfold Granter.get_projects_from_file. rewrite lookup_insert_eq.
    vm_compute. reflexivity.
Qed.

(** C4, counterexample: a line that starts with [#] is returned as a
    project identifier, where the specification's reading ignores it. *)
Lemma file_reader_keeps_comment_lines :
  Granter.get_projects_from_file
    {[ "projects.txt" := "# staging
proj-a
" ]} "projects.txt"
  = Continue ["# staging"; "proj-a"]
  /\ Spec.projects_of_lines (Granter.file_lines "# staging
proj-a
") = ["proj-a"].
Proof. split; vm_compute; reflexivity. Qed.

(** ** The pattern filter *)

Section FilterFacts.
Variable re_search : string -> string -> outcome bool.
Variables include_pattern exclude_pattern : option string.
Hypothesis include_compiles : Spec.compiles re_search include_pattern.
Hypothesis exclude_compiles : Spec.compiles re_search exclude_pattern.

Lemma matches_exclude_found (project_id : string) :
  Lister.matches_exclude re_search exclude_pattern project_id
  = Returned (Spec.found re_search exclude_pattern project_id).
Proof.
  unfold Lister.matches_exclude, Spec.found.
  destruct exclude_pattern as [[|c r]|] eqn:E; simpl; try reflexivity.
  destruct (exclude_compiles eq_refl project_id) as (b & Hb).
  simpl in Hb. rewrite Hb. reflexivity.
Qed.

Lemma misses_include_found (project_id : string) :
  Lister.misses_include re_search include_pattern project_id
  = Returned (Py.truthy include_pattern
              && negb (Spec.found re_search include_pattern project_id)).
Proof.
  unfold Lister.misses_include, Spec.found.
  destruct include_pattern as [[|c r]|] eqn:E; simpl; try reflexivity.
  destruct (include_compiles eq_refl project_id) as (b & Hb).
  simpl in Hb. rewrite Hb. reflexivity.
Qed.

Lemma filter_loop_spec (projects filtered excluded : list Lister.project) :
  Lister.filter_loop re_search include_pattern exclude_pattern
                     projects filtered excluded
  = Returned
      (filtered ++ List.filter
                     (Spec.keeps re_search include_pattern exclude_pattern)
                     projects,
       excluded ++ List.filter
                     (fun p => negb (Spec.keeps re_search include_pattern
                                                exclude_pattern p))
                     projects).
Proof.
  revert filtered excluded.
  induction projects as [|p rest IH]; intros filtered excluded; simpl.
  - rewrite !app_nil_r. reflexivity.
  - rewrite matches_exclude_found, misses_include_found.
    assert (Spec.keeps re_search include_pattern exclude_pattern p
            = negb (Spec.found re_search exclude_pattern (Lister.id p))
              && (negb (Py.truthy include_pattern)
                  || Spec.found re_search include_pattern (Lister.id p)))
      as -> by reflexivity.
    destruct (Spec.found re_search exclude_pattern (Lister.id p));
      destruct (Py.truthy include_pattern);
      destruct (Spec.found re_search include_pattern (Lister.id p));
      simpl; rewrite IH, <- app_assoc; reflexivity.
Qed.
End FilterFacts.

Lemma keeps_without_patterns (re_search : string -> string -> outcome bool)
    (include_pattern exclude_pattern : option string) (p : Lister.project) :
  Py.truthy include_pattern = false -> Py.truthy exclude_pattern = false ->
  Spec.keeps re_search include_pattern exclude_pattern p = true.
Proof.
  intros Hi He. unfold Spec.keeps, Spec.found. rewrite Hi, He. reflexivity.
Qed.

Lemma filter_all {A : Type} (f : A -> bool) (l : list A) :
  (forall x, f x = true) ->
  List.filter f l = l /\ List.filter (fun x => negb (f x)) l = [].
Proof.
  intros Hf. induction l as [|x r [IH1 IH2]]; simpl; [auto|].
  rewrite Hf. simpl. rewrite IH1, IH2. auto.
Qed.

(** C6.  For every project list and every pair of optional patterns that
    compile, the filter returns two lists: the kept projects are the
    projects of the input, in input order, that do not match the exclude
    pattern and, when an include pattern is set, match it; the excluded
    projects are all the others.  A project that matches the exclude
    pattern is excluded whatever the include pattern is.  With no pattern
    set, the kept list is the input and the excluded list is empty.  A
    pattern is set when it is given and not the empty string. *)
Theorem filter_projects_partition
    (re_search : string -> string -> outcome bool)
    (projects : list Lister.project)
    (include_pattern exclude_pattern : option string) :
  Spec.compiles re_search include_pattern ->
  Spec.compiles re_search exclude_pattern ->
  exists kept excluded,
    Lister.filter_projects re_search projects include_pattern exclude_pattern
    = Returned (kept, excluded)
    /\ kept = List.filter
                (Spec.keeps re_search include_pattern exclude_pattern)
                projects
    /\ excluded = List.filter
                    (fun p => negb (Spec.keeps re_search include_pattern
                                               exclude_pattern p))
                    projects
    /\ (forall p, In p projects ->
          (In p kept <->
           Spec.found re_search exclude_pattern (Lister.id p) = false
           /\ (Py.truthy include_pattern = false
               \/ Spec.found re_search include_pattern (Lister.id p) = true)))
    /\ (forall p, In p projects ->
          Spec.found re_search exclude_pattern (Lister.id p) = true ->
          In p excluded /\ ~ In p kept)
    /\ (Py.truthy include_pattern = false ->
        Py.truthy exclude_pattern = false ->
        kept = projects /\ excluded = []).
Proof.
  intros Hi He. unfold Lister.filter_projects.
  rewrite (filter_loop_spec _ _ _ Hi He). simpl.
  eexists _, _. split; [reflexivity|]. split; [reflexivity|].
  split; [reflexivity|]. split; [|split].
  - intros p Hp. rewrite List.filter_In. unfold Spec.keeps.
    destruct (Spec.found re_search exclude_pattern (Lister.id p));
      destruct (Py.truthy include_pattern);
      destruct (Spec.found re_search include_pattern (Lister.id p));
      simpl; intuition congruence.
  - intros p Hp Hx. rewrite !List.filter_In. unfold Spec.keeps.
    rewrite Hx. simpl. split; [auto|]. intros [_ H]. discriminate.
  - intros Hni Hne. apply filter_all. intros p.
    apply keeps_without_patterns; assumption.
Qed.

(** The projects [prod-api], [test-api], [dev-db] with the exclude pattern
    [test|dev]: only [prod-api] is kept. *)
Lemma filter_projects_partition_witness :
  Spec.compiles Lister.literal_search None
  /\ Spec.compiles Lister.literal_search (Some "test|dev")
  /\ exists kept excluded,
       Lister.filter_projects Lister.literal_search
         [Lister.Project "prod-api" "Prod API" "1";
          Lister.Project "test-api" "Test API" "2";
          Lister.Project "dev-db" "Dev DB" "3"] None (Some "test|dev")
       = Returned (kept, excluded)
       /\ kept = [Lister.Project "prod-api" "Prod API" "1"]
       /\ excluded = [Lister.Project "test-api" "Test API" "2";
                      Lister.Project "dev-db" "Dev DB" "3"].
Proof.
  assert (Spec.compiles Lister.literal_search None) as Hi.
  { intros H. discriminate. }
  assert (Spec.compiles Lister.literal_search (Some "test|dev")) as He.
  { intros _ s. unfold Lister.literal_search. simpl. eauto. }
  split; [exact Hi|]. split; [exact He|].
  destruct (filter_projects_partition Lister.literal_search
              [Lister.Project "prod-api" "Prod API" "1";
               Lister.Project "test-api" "Test API" "2";
               Lister.Project "dev-db" "Dev DB" "3"] None (Some "test|dev")
              Hi He) as (kept & excluded & Hr & Hk & Hx & _).
  exists kept, excluded. split; [exact Hr|].
  split; [rewrite Hk|rewrite Hx]; vm_compute; reflexivity.
Defined.

(** ** Worker tasks and the pool *)

Section PoolFacts.
Import Granter.

Ltac task_ok_step :=
  cbn [bind];
  lazymatch goal with
  | |- task_ok _ _ _ _ (Ret _) =>
      apply ok_ret; [reflexivity | reflexivity | cbn; intros; try discriminate]
  | |- task_ok _ _ _ _ (GetIamPolicy _ _) => apply ok_get; intros [?|?]
  | |- task_ok _ _ _ _ (SetIamPolicy _ _ _) => apply ok_set; [|intros [?|?]]
  | |- task_ok _ _ _ _ (Incr _ _) => apply ok_incr
  | |- task_ok _ _ _ _ (LogError _ _) => apply ok_log
  | |- task_ok _ _ _ _ _ => case_match
  end.

Ltac tally :=
  repeat match goal with d : tally |- _ => destruct d end;
  unfold tally_add, tally_zero, tally_of_state, tally_of_counter in *;
  simpl in *;
  repeat match goal with
         | H : Tally _ _ _ = Tally _ _ _ |- _ => injection H as ? ? ?
         end;
  try (f_equal; lia).

(** The task of a project keeps the contract, with writes only outside
    the dry-run and check-only modes. *)
Lemma grant_task_ok (a : args) (pid member role_ : string) :
  task_ok pid (negb (dry_run a || check_only a)) 6 tally_zero
          (grant_iam_permission a pid member role_).
Proof.
  unfold grant_iam_permission, check_permission, try_except, bind_try,
    never_raises, getIamPolicy, setIamPolicy, increment, evaluate, return_.
  repeat task_ok_step.
  all: destruct (dry_run a || check_only a); simpl in *; congruence.
Qed.

Lemma grant_task_not_ret (a : args) (pid member role_ : string) :
  is_ret (grant_iam_permission a pid member role_) = false.
Proof. reflexivity. Qed.

Lemma api_set_tally (f : fault) (r : string) (b : Iam.policy) (st : state) :
  tally_of_state (snd (api_set f r b st)) = tally_of_state st.
Proof.
  unfold api_set. destruct f; [reflexivity|].
  destruct (policies st !! r); reflexivity.
Qed.

(** One effect of a task that keeps the contract: the task still keeps
    it with one step less, and the counters move by what the task has
    added to its own account. *)
Lemma step_task_ok (pid : string) (w : bool) (n : nat) (d : tally)
    (p : prog task_result) (f : fault) (st : state) :
  task_ok pid w n d p -> is_ret p = false ->
  exists n' d',
    n = S n'
    /\ task_ok pid w n' d' (fst (step f p st))
    /\ tally_add (tally_of_state (snd (step f p st))) d
       = tally_add (tally_of_state st) d'
    /\ (w = false ->
        policies (snd (step f p st)) = policies st
        /\ set_requests (snd (step f p st)) = set_requests st).
Proof.
  intros H Hr. destruct H as [| n d res k Hk | n d res body k Hw Hk
                              | n d c k Hk | n d msg k Hk];
    simpl in Hr; try discriminate; simpl.
  - exists n, d. repeat split; auto.
  - exists n, d. pose proof (api_set_tally f res body st) as Ht.
    destruct (api_set f res body st) as [o st'] eqn:E. simpl in *.
    split; [reflexivity|]. split; [apply Hk|].
    split; [rewrite Ht; reflexivity|].
    intros ->. discriminate.
  - exists n, (tally_add d (tally_of_counter c)).
    split; [reflexivity|]. split; [exact Hk|]. split.
    + destruct c; tally.
    + intros _. destruct c; auto.
  - exists n, d. repeat split; auto.
Qed.

Lemma running_ok_app (w : bool) (l1 l2 : list (string * prog task_result))
    (n1 n2 : nat) (d1 d2 : tally) :
  running_ok w l1 n1 d1 -> running_ok w l2 n2 d2 ->
  exists n d, running_ok w (l1 ++ l2) n d
              /\ n = n1 + n2 /\ d = tally_add d1 d2.
Proof.
  induction 1 as [|pid p n d rest steps done Hp Hr Hrest IH]; intros H2.
  - exists n2, d2. split; [exact H2|]. split; [reflexivity|]. tally.
  - destruct (IH H2) as (n' & d' & Hok & -> & ->).
    eexists _, _. split; [simpl; econstructor; eauto|].
    split; [lia|]. tally.
Qed.

Lemma running_ok_app_inv (w : bool)
    (l1 l2 : list (string * prog task_result)) (n : nat) (d : tally) :
  running_ok w (l1 ++ l2) n d ->
  exists n1 d1 n2 d2,
    running_ok w l1 n1 d1 /\ running_ok w l2 n2 d2
    /\ n = n1 + n2 /\ d = tally_add d1 d2.
Proof.
  revert n d. induction l1 as [|[pid p] l1 IH]; intros n d H; simpl in H.
  - exists 0, tally_zero, n, d. split; [constructor|]. split; [exact H|].
    split; [reflexivity|]. tally.
  - inversion H as [|? ? n0 d0 ? steps done Hp Hr Hrest]; subst.
    destruct (IH _ _ Hrest) as (n1 & d1 & n2 & d2 & H1 & H2 & -> & ->).
    eexists _, _, n2, d2. split; [econstructor; eauto|].
    split; [exact H2|]. split; [lia|]. tally.
Qed.

Lemma running_ok_new (a : args) (member role_ : string) (ps : list string) :
  exists n d,
    running_ok (negb (dry_run a || check_only a))
      (map (fun pid => (pid, grant_iam_permission a pid member role_)) ps)
      n d
    /\ n = 6 * length ps /\ d = tally_zero.
Proof.
  induction ps as [|pid ps (n & d & Hok & -> & ->)]; simpl.
  - exists 0, tally_zero. split; [constructor|]. split; reflexivity.
  - eexists _, _. split.
    + econstructor; [apply grant_task_ok|reflexivity|exact Hok].
    + split; [lia|reflexivity].
Qed.

Lemma running_ok_zero (w : bool) (l : list (string * prog task_result))
    (d : tally) :
  running_ok w l 0 d -> l = [].
Proof.
  inversion 1 as [|pid p n d0 rest steps done Hp Hr Hrest Hl Hn];
    [reflexivity|].
  assert (n = 0) as -> by lia.
  inversion Hp; subst; discriminate.
Qed.

Lemma tally_of_results_app (rs1 rs2 : list task_result) :
  tally_of_results (rs1 ++ rs2)
  = tally_add (tally_of_results rs1) (tally_of_results rs2).
Proof.
  induction rs1 as [|r rs1 IH]; simpl.
  - destruct (tally_of_results rs2). reflexivity.
  - rewrite IH. destruct (tally_of_status (status r)),
      (tally_of_results rs1), (tally_of_results rs2). tally.
Qed.

Lemma count_status_app (s : task_status) (rs1 rs2 : list task_result) :
  count_status s (rs1 ++ rs2) = count_status s rs1 + count_status s rs2.
Proof.
  induction rs1 as [|r rs1 IH]; simpl; [reflexivity|]. rewrite IH. lia.
Qed.

Section Run.
Variables (a : args) (member role_ : string).
Variables (projects : list string) (st0 : state).

Lemma start_workers_inv (budget : nat) (pl : pool) (st : state) :
  pool_inv (writes_enabled a) projects st0 budget pl st ->
  pool_inv (writes_enabled a) projects st0 budget
           (start_workers a member role_ pl) st.
Proof.
  intros [(steps & done & Hok & Hb & Ht) Hp Hs Hg].
  set (free := Z.to_nat (max_workers a) - length (running pl)).
  destruct (running_ok_new a member role_ (take free (pending pl)))
    as (n2 & d2 & Hnew & -> & ->).
  destruct (running_ok_app _ _ _ _ _ _ _ Hok Hnew)
    as (n & d & Hall & -> & ->).
  split; simpl; fold free.
  - eexists _, _. split; [exact Hall|]. split.
    + rewrite length_drop. pose proof (length_take_le (pending pl) free).
      rewrite length_take in *. lia.
    + rewrite Ht. destruct (tally_of_state st0),
        (tally_of_results (completed pl)). tally.
  - rewrite map_app, map_map. simpl. rewrite map_id, <- app_assoc.
    rewrite take_drop. exact Hp.
  - exact Hs.
  - exact Hg.
Qed.

Lemma start_workers_idle (pl : pool) :
  (1 <= max_workers a)%Z ->
  running (start_workers a member role_ pl) = [] ->
  finished (start_workers a member role_ pl).
Proof.
  intros workers H. split; [|exact H]. simpl in *.
  apply app_eq_nil in H as [Hr Hn]. rewrite Hr in *. simpl in *.
  destruct (pending pl) as [|pid ps]; [apply drop_nil|].
  replace (Z.to_nat (max_workers a) - 0)
    with (S (Z.to_nat (max_workers a) - 1)) in Hn by lia.
  discriminate.
Qed.

Lemma running_ok_pick (l : list (string * prog task_result)) (n : nat)
    (d : tally) (i : nat) (pid : string) (p : prog task_result) :
  running_ok (writes_enabled a) l n d -> l !! i = Some (pid, p) ->
  exists n1 d1 np dp n2 d2,
    running_ok (writes_enabled a) (take i l) n1 d1
    /\ task_ok pid (writes_enabled a) np dp p /\ is_ret p = false
    /\ running_ok (writes_enabled a) (drop (S i) l) n2 d2
    /\ n = n1 + (np + n2) /\ d = tally_add d1 (tally_add dp d2).
Proof.
  intros Hok Hi. rewrite <- (take_drop_middle l i _ Hi) in Hok.
  apply running_ok_app_inv in Hok
    as (n1 & d1 & n' & d' & H1 & H2 & -> & ->).
  inversion H2 as [|? ? np dp ? n2 d2 Hp Hr Hrest]; subst.
  exists n1, d1, np, dp, n2, d2. auto 10.
Qed.

(** The picked task does one effect: the invariant is kept with one
    unit less of the budget. *)
Lemma pool_pick_inv (budget : nat) (f : fault) (pl : pool) (st : state)
    (i : nat) (pid : string) (p : prog task_result) :
  pool_inv (writes_enabled a) projects st0 budget pl st ->
  running pl !! i = Some (pid, p) ->
  let next :=
    let (p', st') := step f p st in
    match p' with
    | Ret result =>
        (Pool (pending pl) (delete i (running pl))
              (completed pl ++ [result]), st')
    | _ =>
        (Pool (pending pl) (<[i := (pid, p')]> (running pl))
              (completed pl), st')
    end in
  exists b, budget = S b
            /\ pool_inv (writes_enabled a) projects st0 b
                        (fst next) (snd next).
Proof.
  intros [(steps & done & Hok & Hb & Ht) Hp Hs Hg] Hi.
  destruct (running_ok_pick _ _ _ _ _ _ Hok Hi)
    as (n1 & d1 & np & dp & n2 & d2 & H1 & Htask & Hr & H2 & -> & ->).
  destruct (step_task_ok pid (writes_enabled a) np dp p f st Htask Hr)
    as (n' & d' & -> & Htask' & Hst & Hw).
  destruct (step f p st) as [p' st'] eqn:Hstep. simpl in Htask', Hst, Hw.
  exists (budget - 1). split; [lia|].
  assert (i < length (running pl)) as Hlt
    by (eapply lookup_lt_Some; eauto).
  assert (map fst (running pl)
          = map fst (take i (running pl)) ++ pid
            :: map fst (drop (S i) (running pl))) as Hsplit.
  { rewrite <- (take_drop_middle _ _ _ Hi) at 1.
    rewrite map_app. reflexivity. }
  assert (forall r, p' = Ret r ->
            pool_inv (writes_enabled a) projects st0 (budget - 1)
              (Pool (pending pl) (delete i (running pl))
                    (completed pl ++ [r])) st') as Hdone.
  { intros r ->.
    inversion Htask' as [? ? ? Hpid Hd Hgr| | | |].
    destruct (running_ok_app _ _ _ _ _ _ _ H1 H2)
      as (ntot & dtot & Hall & -> & ->).
    split; simpl.
    - rewrite delete_take_drop. eexists _, _.
      split; [exact Hall|]. split; [lia|].
      rewrite tally_of_results_app. simpl. rewrite <- Hd.
      destruct (tally_of_state st0), (tally_of_results (completed pl)),
        (tally_of_state st) eqn:E1, (tally_of_state st') eqn:E2.
      tally.
    - rewrite delete_take_drop, !map_app, <- app_assoc. simpl.
      rewrite <- Hp, Hsplit, <- !app_assoc, Hpid.
      apply Permutation_app_head. simpl.
      apply Permutation_middle.
    - intros Hf. destruct (Hw Hf) as [-> ->]. auto.
    - intros Hf. rewrite count_status_app, (Hg Hf). simpl.
      destruct (status r); try reflexivity.
      specialize (Hgr eq_refl). congruence. }
  assert (is_ret p' = false ->
            pool_inv (writes_enabled a) projects st0 (budget - 1)
              (Pool (pending pl) (<[i := (pid, p')]> (running pl))
                    (completed pl)) st') as Hcont.
  { intros Hr'.
    assert (running_ok (writes_enabled a) ((pid, p') :: drop (S i) (running pl))
              (n' + n2) (tally_add d' d2)) as H2'
      by (constructor; assumption).
    destruct (running_ok_app _ _ _ _ _ _ _ H1 H2')
      as (ntot & dtot & Hall & -> & ->).
    split; simpl.
    - rewrite insert_take_drop by exact Hlt. eexists _, _.
      split; [exact Hall|]. split; [lia|].
      destruct (tally_of_state st0), (tally_of_results (completed pl)),
        (tally_of_state st) eqn:E1, (tally_of_state st') eqn:E2.
      tally.
    - rewrite insert_take_drop by exact Hlt.
      rewrite map_app. simpl. rewrite <- Hsplit. exact Hp.
    - intros Hf. destruct (Hw Hf) as [-> ->]. auto.
    - exact Hg. }
  destruct p'; simpl; [apply Hdone; reflexivity|apply Hcont; reflexivity..].
Qed.

(** A step of the pool keeps the invariant and uses up one unit of the
    budget, unless no task is running: then it only starts workers,
    and finds no project to start when there is at least one worker. *)
Lemma pool_step_inv (budget : nat) (c : nat * fault) (pl : pool)
    (st : state) :
  pool_inv (writes_enabled a) projects st0 budget pl st ->
  (((1 <= max_workers a)%Z ->
    finished (fst (pool_step a member role_ c pl st)))
   /\ pool_inv (writes_enabled a) projects st0 budget
        (fst (pool_step a member role_ c pl st))
        (snd (pool_step a member role_ c pl st)))
  \/ exists b, budget = S b
               /\ pool_inv (writes_enabled a) projects st0 b
                    (fst (pool_step a member role_ c pl st))
                    (snd (pool_step a member role_ c pl st)).
Proof.
  intros Hinv. apply start_workers_inv in Hinv. unfold pool_step.
  pose proof (start_workers_idle pl) as Hidle.
  generalize dependent (start_workers a member role_ pl).
  intros pl1 Hinv Hidle.
  destruct (running pl1 !! (fst c mod length (running pl1)))
    as [[pid p]|] eqn:Hi.
  - right. exact (pool_pick_inv budget (snd c) pl1 st _ pid p Hinv Hi).
  - left. simpl. split; [|exact Hinv]. intros workers.
    apply Hidle; [exact workers|].
    apply lookup_ge_None in Hi.
    destruct (running pl1) as [|x l]; [reflexivity|].
    pose proof (Nat.mod_upper_bound (fst c) (length (x :: l))) as Hm.
    simpl in *. lia.
Qed.

Lemma pool_inv_finished (budget : nat) (pl : pool) (st : state) :
  finished pl -> pool_inv (writes_enabled a) projects st0 budget pl st ->
  pool_inv (writes_enabled a) projects st0 0 pl st.
Proof.
  intros [Hpend Hrun] [(steps & done & Hok & Hb & Ht) Hp Hs Hg].
  split; auto. exists steps, done. split; [exact Hok|]. split; [|exact Ht].
  rewrite Hrun in Hok. inversion Hok. rewrite Hpend. simpl. lia.
Qed.

Lemma pool_inv_zero (pl : pool) (st : state) :
  pool_inv (writes_enabled a) projects st0 0 pl st -> finished pl.
Proof.
  intros [(steps & done & Hok & Hb & Ht) Hp Hs Hg]. split.
  - destruct (pending pl); [reflexivity|]. simpl in Hb. lia.
  - assert (steps = 0) as -> by lia. eapply running_ok_zero, Hok.
Qed.

(** The invariant holds all along a run of the pool. *)
Lemma run_pool_inv (fuel : nat) (sched : nat -> nat * fault) (t : nat)
    (budget : nat) (pl : pool) (st : state) :
  pool_inv (writes_enabled a) projects st0 budget pl st ->
  exists b, pool_inv (writes_enabled a) projects st0 b
              (fst (run_pool a member role_ fuel sched t pl st))
              (snd (run_pool a member role_ fuel sched t pl st)).
Proof.
  revert t budget pl st.
  induction fuel as [|fuel IH]; intros t budget pl st Hinv; simpl.
  - exists budget. exact Hinv.
  - destruct (pool_step_inv budget (sched t) pl st Hinv)
      as [[_ H]|(b & _ & H)];
      destruct (pool_step a member role_ (sched t) pl st) as [pl' st'];
      eapply IH, H.
Qed.

(** With at least one worker, a run that is given the budget in fuel
    ends with nothing left to run. *)
Lemma run_pool_finished (fuel : nat) (sched : nat -> nat * fault)
    (t : nat) (budget : nat) (pl : pool) (st : state) :
  (1 <= max_workers a)%Z ->
  pool_inv (writes_enabled a) projects st0 budget pl st -> budget <= fuel ->
  finished (fst (run_pool a member role_ fuel sched t pl st)).
Proof.
  intros workers. revert t budget pl st.
  induction fuel as [|fuel IH]; intros t budget pl st Hinv Hb; simpl.
  - apply (pool_inv_zero pl st). assert (budget = 0) as <- by lia.
    exact Hinv.
  - destruct (pool_step_inv budget (sched t) pl st Hinv)
      as [[Hfin H]|(b & -> & H)];
      destruct (pool_step a member role_ (sched t) pl st) as [pl' st'];
      simpl in *.
    + eapply (IH _ 0); [|lia].
      eapply pool_inv_finished; [apply Hfin, workers|exact H].
    + eapply (IH _ b); [exact H|lia].
Qed.

Lemma pool_inv_initial :
  pool_inv (writes_enabled a) projects st0 (6 * length projects)
           (Pool projects [] []) st0.
Proof.
  split; simpl; auto.
  exists 0, tally_zero. split; [constructor|]. split; [lia|].
  destruct (tally_of_state st0). tally.
Qed.
End Run.
End PoolFacts.

Section Outcomes.
Import Granter.

Lemma tally_of_results_counts (rs : list task_result) :
  tally_of_results rs
  = Tally (count_status granted rs) (count_status failed rs)
          (count_status already_granted rs).
Proof.
  induction rs as [|r rs IH]; simpl; [reflexivity|].
  rewrite IH. destruct (status r); reflexivity.
Qed.

Lemma count_status_total (rs : list task_result) :
  count_status granted rs + count_status already_granted rs
  + count_status failed rs + count_status would_grant rs
  = length rs.
Proof.
  induction rs as [|r rs IH]; simpl; [reflexivity|].
  destruct (status r); simpl; lia.
Qed.

(** C7.  After a run of the executor with at least one worker, under
    every schedule and whatever requests fail, nothing is pending or
    running, the collected results are for exactly the input projects
    (each project once for each time it is in the input), the numbers of
    [granted], [already_granted], [failed] and [would_grant] results add
    up to the number of input projects, and the three global counters
    have grown by the numbers of [granted], [already_granted] and
    [failed] results. *)
Theorem every_project_gets_one_outcome
    (a : args) (member role_ : string) (sched : nat -> nat * fault)
    (projects : list string) (st : state) :
  (1 <= max_workers a)%Z ->
  let out := process_projects_parallel a member role_ sched projects st in
  let results := completed (fst out) in
  finished (fst out)
  /\ map project_id results ≡ₚ projects
  /\ count_status granted results + count_status already_granted results
     + count_status failed results + count_status would_grant results
     = length projects
  /\ success_count (snd out) = success_count st + count_status granted results
  /\ already_granted_count (snd out)
     = already_granted_count st + count_status already_granted results
  /\ failure_count (snd out) = failure_count st + count_status failed results.
Proof.
  intros workers. cbv zeta. unfold process_projects_parallel.
  pose proof (pool_inv_initial a projects st) as Hinit.
  pose proof (run_pool_finished a member role_ projects st
                (6 * length projects) sched 0 _ _ _ workers Hinit
                (le_n _)) as Hfin.
  destruct (run_pool_inv a member role_ projects st
              (6 * length projects) sched 0 _ _ _ Hinit)
    as (b & [(steps & done & Hok & _ & Ht) Hp _ _]).
  destruct (run_pool a member role_ (6 * length projects) sched 0
              (Pool projects [] []) st) as [pl st'].
  simpl in *. destruct Hfin as [Hpend Hrun].
  rewrite Hpend, Hrun, !app_nil_r in Hp. rewrite Hrun in Hok.
  inversion Hok; subst. rewrite tally_of_results_counts in Ht.
  injection Ht as Hs Hf Ha. simpl in *.
  split; [split; assumption|]. split; [exact Hp|].
  split; [|repeat split; lia].
  rewrite count_status_total, <- (length_map project_id).
  apply Permutation_length, Hp.
Qed.

(** Three projects, two workers, tasks taken in turn, every third
    request failing. *)
Lemma every_project_gets_one_outcome_witness :
  let a := Args false "projects.txt" None None "roles/viewer" 2 false false in
  let sched := fun t : nat =>
    (t, if Nat.eqb (t mod 3) 2 then Some "503" else None) in
  let st := State {[ "p1" := Iam.Policy None "e1" ]} 0 0 0 [] [] in
  let out := process_projects_parallel a "user:a@example.com" "roles/viewer"
               sched ["p1"; "p2"; "p3"] st in
  (1 <= max_workers a)%Z
  /\ finished (fst out)
  /\ count_status granted (completed (fst out))
     + count_status already_granted (completed (fst out))
     + count_status failed (completed (fst out))
     + count_status would_grant (completed (fst out)) = 3.
Proof.
  cbv zeta. split; [simpl; lia|].
  destruct (every_project_gets_one_outcome
              (Args false "projects.txt" None None "roles/viewer" 2
                    false false)
              "user:a@example.com" "roles/viewer"
              (fun t : nat =>
                 (t, if Nat.eqb (t mod 3) 2 then Some "503" else None))
              ["p1"; "p2"; "p3"]
              (State {[ "p1" := Iam.Policy None "e1" ]} 0 0 0 [] []))
    as (Hfin & _ & Hsum & _); [simpl; lia|].
  split; [exact Hfin|exact Hsum].
Defined.
End Outcomes.

(** ** The policy update *)

Lemma contains_In (x : string) (l : list string) :
  Py.contains x l = true <-> In x l.
Proof.
  induction l as [|y r IH]; simpl; [split; [discriminate|tauto]|].
  destruct (String.eqb_spec y x) as [->|Hne]; [tauto|].
  rewrite IH. split; [tauto|]. intros [H|H]; [contradiction|exact H].
Qed.

Lemma contains_count (x : string) (l : list string) :
  Py.contains x l = false <-> count_occ string_dec l x = 0.
Proof.
  rewrite <- count_occ_not_In, <- contains_In.
  destruct (Py.contains x l); split; congruence.
Qed.

(** The loop found a binding of the role: that binding is the first of the
    role, it has a member list, and the member is appended to the list
    unless the list has it; nothing else changes. *)
Lemma add_member_found (bs bs' : list Iam.binding) (member role_ : string) :
  Iam.add_member bs member role_ = Returned (Some bs') ->
  exists l1 b l2 ms,
    bs = l1 ++ b :: l2
    /\ Forall (fun x => Iam.role x <> role_) l1
    /\ Iam.role b = role_ /\ Iam.members b = Some ms
    /\ bs' = l1 ++ Iam.Binding role_
                      (Some (if Py.contains member ms then ms
                             else ms ++ [member])) :: l2.
Proof.
  revert bs'. induction bs as [|b rest IH]; intros bs'; simpl; [discriminate|].
  destruct (String.eqb_spec (Iam.role b) role_) as [Hr|Hr].
  - destruct b as [r [ms|]]; simpl in *; subst r.
    + destruct (Py.contains member ms) eqn:Hc; simpl; intros [= <-];
        exists [], (Iam.Binding role_ (Some ms)), rest, ms; simpl;
        rewrite Hc; auto 10.
    + discriminate.
  - destruct (Iam.add_member rest member role_) as [[rest'|]|ex];
      try discriminate.
    intros [= <-]. destruct (IH rest' eq_refl)
      as (l1 & b0 & l2 & ms & -> & Hl1 & Hb0 & Hms & ->).
    exists (b :: l1), b0, l2, ms. simpl. auto 10.
Qed.

Lemma add_member_not_found (bs : list Iam.binding) (member role_ : string) :
  Iam.add_member bs member role_ = Returned None ->
  Forall (fun x => Iam.role x <> role_) bs.
Proof.
  induction bs as [|b rest IH]; simpl; [constructor|].
  destruct (String.eqb_spec (Iam.role b) role_) as [Hr|Hr].
  - destruct (negb _); [destruct (Iam.members b)|]; discriminate.
  - destruct (Iam.add_member rest member role_) as [[rest'|]|ex];
      try discriminate.
    intros _. constructor; auto.
Qed.

Lemma role_entries_none (bs : list Iam.binding) (member role_ : string) :
  Forall (fun x => Iam.role x <> role_) bs ->
  Spec.role_entries bs role_ = 0 /\ Spec.target_entries bs member role_ = 0
  /\ ~ In role_ (map Iam.role bs)
  /\ List.find (fun b => String.eqb (Iam.role b) role_) bs = None.
Proof.
  unfold Spec.role_entries, Spec.target_entries.
  induction 1 as [|b rest Hb Hrest (IH1 & IH2 & IH3 & IH4)]; simpl; [tauto|].
  apply String.eqb_neq in Hb as Hb'. rewrite Hb'. rewrite IH4 in *.
  repeat split; auto. intros [H|H]; auto.
Qed.

Lemma role_entries_app (l1 l2 : list Iam.binding) (role_ : string) :
  Spec.role_entries (l1 ++ l2) role_
  = Spec.role_entries l1 role_ + Spec.role_entries l2 role_.
Proof.
  unfold Spec.role_entries. rewrite List.filter_app. apply length_app.
Qed.

Lemma target_entries_app (l1 l2 : list Iam.binding) (member role_ : string) :
  Forall (fun x => Iam.role x <> role_) l1 ->
  Spec.target_entries (l1 ++ l2) member role_
  = Spec.target_entries l2 member role_.
Proof.
  unfold Spec.target_entries. induction 1 as [|b rest Hb Hrest IH]; simpl;
    [reflexivity|].
  apply String.eqb_neq in Hb. rewrite Hb. exact IH.
Qed.

Lemma has_member_app (l1 l2 : list Iam.binding) (member role_ : string) :
  Forall (fun x => Iam.role x <> role_) l1 ->
  Iam.has_member (l1 ++ l2) member role_ = Iam.has_member l2 member role_.
Proof.
  induction 1 as [|b rest Hb Hrest IH]; simpl; [reflexivity|].
  apply String.eqb_neq in Hb. rewrite Hb. exact IH.
Qed.

(** What the update does to a policy, in numbers: the role has as many
    bindings as before, or one if it had none; the first binding of the
    role lists the member as often as before, or once if it did not; and
    the check finds the member in the updated policy. *)
Lemma add_binding_entries (p p' : Iam.policy) (member role_ : string) :
  Iam.add_binding p member role_ = Returned p' ->
  let bs := Iam.get_or_nil (Iam.bindings p) in
  let bs' := Iam.get_or_nil (Iam.bindings p') in
  Spec.role_entries bs' role_ = Nat.max 1 (Spec.role_entries bs role_)
  /\ Spec.target_entries bs' member role_
     = Nat.max 1 (Spec.target_entries bs member role_)
  /\ Iam.has_member bs' member role_ = true
  /\ Iam.etag p' = Iam.etag p.
Proof.
  unfold Iam.add_binding. cbv zeta.
  destruct (Iam.add_member (Iam.get_or_nil (Iam.bindings p)) member role_)
    as [[bs'|]|ex] eqn:E; intros [= <-]; simpl.
  - apply add_member_found in E
      as (l1 & b & l2 & ms & -> & Hl1 & Hb & Hms & ->).
    rewrite !role_entries_app, !target_entries_app, !has_member_app
      by exact Hl1.
    destruct b as [r mb]. simpl in Hb, Hms. subst r mb.
    unfold Spec.role_entries, Spec.target_entries. simpl.
    rewrite !String.eqb_refl. simpl.
    destruct (Py.contains member ms) eqn:Hc.
    + rewrite Hc. repeat split; [lia|].
      apply contains_In, (count_occ_In string_dec) in Hc. lia.
    + apply contains_count in Hc as Hz. rewrite count_occ_app, Hz. simpl.
      destruct (string_dec member member); [|contradiction].
      assert (Py.contains member (ms ++ [member]) = true) as ->.
      { apply contains_In, in_or_app. right. left. reflexivity. }
      repeat split; lia.
  - apply add_member_not_found in E.
    destruct (role_entries_none _ member role_ E) as (H1 & H2 & _ & _).
    rewrite role_entries_app, target_entries_app, has_member_app by exact E.
    rewrite H1, H2. unfold Spec.role_entries, Spec.target_entries. simpl.
    rewrite !String.eqb_refl. simpl.
    destruct (string_dec member member); [|contradiction]. auto.
Qed.

(** The loop passes over the bindings of other roles. *)
Lemma add_member_skip (l1 l2 : list Iam.binding) (member role_ : string) :
  Forall (fun x => Iam.role x <> role_) l1 ->
  Iam.add_member (l1 ++ l2) member role_
  = match Iam.add_member l2 member role_ with
    | Returned (Some l2') => Returned (Some (l1 ++ l2'))
    | Returned None => Returned None
    | Raised ex => Raised ex
    end.
Proof.
  induction 1 as [|b rest Hb Hrest IH]; simpl.
  - destruct (Iam.add_member l2 member role_) as [[l2'|]|ex]; reflexivity.
  - apply String.eqb_neq in Hb. rewrite Hb, IH.
    destruct (Iam.add_member l2 member role_) as [[l2'|]|ex]; reflexivity.
Qed.

(** The update changes nothing in a policy it has produced. *)
Lemma add_binding_idempotent (p p' : Iam.policy) (member role_ : string) :
  Iam.add_binding p member role_ = Returned p' ->
  Iam.add_binding p' member role_ = Returned p'.
Proof.
  unfold Iam.add_binding.
  destruct (Iam.add_member (Iam.get_or_nil (Iam.bindings p)) member role_)
    as [[bs'|]|ex] eqn:E; intros [= <-]; simpl.
  - apply add_member_found in E
      as (l1 & b & l2 & ms & _ & Hl1 & _ & _ & ->).
    rewrite (add_member_skip _ _ _ _ Hl1). simpl.
    rewrite String.eqb_refl.
    assert (Py.contains member
              (if Py.contains member ms then ms else ms ++ [member]) = true)
      as ->; [|reflexivity].
    destruct (Py.contains member ms) eqn:Hc; [exact Hc|].
    apply contains_In, in_or_app. right. left. reflexivity.
  - apply add_member_not_found in E.
    rewrite (add_member_skip _ _ _ _ E). simpl.
    rewrite !String.eqb_refl. reflexivity.
Qed.

(** ** The per-project operation run alone *)

Section TaskFacts.
Import Granter.

Ltac run_task :=
  unfold grant_iam_permission, check_permission, try_except, bind_try,
    never_raises, getIamPolicy, setIamPolicy, increment, evaluate, return_;
  cbn [bind run];
  repeat (case_match; cbn [bind run fst snd]).

Lemma api_get_returned (f : fault) (pid : string) (st : state)
    (pol : Iam.policy) :
  api_get f pid st = Returned pol ->
  f = None /\ policies st !! pid = Some pol.
Proof.
  unfold api_get. destruct f; [discriminate|].
  destruct (policies st !! pid); [|discriminate]. intros [= ->]. auto.
Qed.

Lemma api_set_returned (f : fault) (pid : string) (body : Iam.policy)
    (st st' : state) (u : unit) :
  api_set f pid body st = (Returned u, st') ->
  policies st' = <[pid := body]> (policies st)
  /\ set_requests st' = set_requests st ++ [(pid, body)]
  /\ errors_log st' = errors_log st
  /\ tally_of_state st' = tally_of_state st.
Proof.
  unfold api_set. destruct f; [discriminate|].
  destruct (policies st !! pid); [|discriminate]. intros [= _ <-].
  repeat split.
Qed.

(** A run that ends [granted] has read the stored policy, updated it and
    written it back. *)
Lemma granted_run (a : args) (pid member role_ : string) (fs : list fault)
    (st : state) :
  let out := run (grant_iam_permission a pid member role_) fs st in
  status (fst out) = granted ->
  exists pol pol',
    policies st !! pid = Some pol
    /\ Iam.add_binding pol member role_ = Returned pol'
    /\ policies (snd out) = <[pid := pol']> (policies st)
    /\ set_requests (snd out) = set_requests st ++ [(pid, pol')]
    /\ dry_run a || check_only a = false.
Proof.
  cbv zeta. run_task; simpl; try discriminate; intros _.
  all: match goal with
       | H : api_set _ _ _ _ = (Returned _, _) |- _ =>
           apply api_set_returned in H as (Hp & Hs & _ & _)
       end.
  all: match goal with
       | H : api_get _ _ ?s = Returned ?p, H' : Iam.add_binding ?p _ _ = _
         |- _ => apply api_get_returned in H as [_ H]
       end.
  all: eexists _, _; simpl in *; rewrite ?Hp, ?Hs; eauto.
Qed.

Lemma already_granted_run (a : args) (pid member role_ : string)
    (fs : list fault) (st : state) (pol : Iam.policy) :
  next_fault fs = None ->
  policies st !! pid = Some pol ->
  Iam.has_member (Iam.get_or_nil (Iam.bindings pol)) member role_ = true ->
  run (grant_iam_permission a pid member role_) fs st
  = (TaskResult pid already_granted ("Already has " +:+ role_),
     bump AlreadyGranted st).
Proof.
  intros Hf Hpol Hm.
  unfold grant_iam_permission, check_permission, try_except, bind_try,
    never_raises, getIamPolicy, setIamPolicy, increment, evaluate, return_.
  cbn [bind run]. unfold api_get. rewrite Hf, Hpol. cbn [bind run].
  rewrite Hm. reflexivity.
Qed.

(** C8.  In dry-run or check-only mode the per-project operation ends
    [already_granted] or [would_grant], never [granted]; it sends no
    write and leaves the stored policies as they are; and it ends
    [would_grant] when the stored policy of the project does not list
    the member under the role.  The same holds of a whole run of the
    executor: no result is [granted], no write is sent, no policy
    changes, under every schedule and whatever requests fail. *)
Theorem dry_run_and_check_only_never_write
    (a : args) (member role_ : string) :
  dry_run a || check_only a = true ->
  (forall pid fs st,
      let out := run (grant_iam_permission a pid member role_) fs st in
      (status (fst out) = already_granted \/ status (fst out) = would_grant)
      /\ status (fst out) <> granted
      /\ set_requests (snd out) = set_requests st
      /\ policies (snd out) = policies st
      /\ ((forall pol, policies st !! pid = Some pol ->
             Iam.has_member (Iam.get_or_nil (Iam.bindings pol)) member role_
             = false) ->
          status (fst out) = would_grant))
  /\ (forall sched projects st,
         let out :=
           process_projects_parallel a member role_ sched projects st in
         count_status granted (completed (fst out)) = 0
         /\ set_requests (snd out) = set_requests st
         /\ policies (snd out) = policies st).
Proof.
  intros Hdry. split.
  - intros pid fs st. cbv zeta. run_task; simpl; try congruence.
    all: repeat split; auto; try discriminate.
    all: intros Hlack.
    all: match goal with
         | H : api_get _ _ _ = Returned _ |- _ =>
             apply api_get_returned in H as [_ H]; apply Hlack in H
         end.
    all: simpl in *; destruct (Iam.has_member _ _ _); discriminate.
  - intros sched projects st. cbv zeta. unfold process_projects_parallel.
    destruct (run_pool_inv a member role_ projects st
                (6 * length projects) sched 0 _ _ _
                (pool_inv_initial a projects st))
      as (b & [_ _ Hs Hg]).
    unfold writes_enabled in Hs, Hg. rewrite Hdry in Hs, Hg. simpl in Hs, Hg.
    destruct (Hs eq_refl) as [Hp Hr]. auto.
Qed.

(** A check-only run on a project whose policy lacks the member. *)
Lemma dry_run_and_check_only_never_write_witness :
  let a := Args false "projects.txt" (Some "a@example.com") None
                "roles/viewer" 100 false true in
  let st := State {[ "demo" := Iam.Policy None "BwYd" ]} 0 0 0 [] [] in
  let out := run (grant_iam_permission a "demo" "user:a@example.com"
                                       "roles/viewer") [] st in
  dry_run a || check_only a = true
  /\ status (fst out) = would_grant
  /\ set_requests (snd out) = [].
Proof.
  cbv zeta. split; [reflexivity|].
  destruct (dry_run_and_check_only_never_write
              (Args false "projects.txt" (Some "a@example.com") None
                    "roles/viewer" 100 false true)
              "user:a@example.com" "roles/viewer" eq_refl) as [Htask _].
  destruct (Htask "demo" []
              (State {[ "demo" := Iam.Policy None "BwYd" ]} 0 0 0 [] []))
    as (_ & _ & Hreq & _ & Hlack).
  split; [|exact Hreq]. apply Hlack. intros pol Hpol.
  simpl in Hpol. rewrite lookup_singleton_eq in Hpol.
  injection Hpol as <-. reflexivity.
Defined.

(** C1: the check request fails, the read and the write that follow do
    not.  The operation logs the failed check and goes on: outside the
    dry-run and check-only modes it reads the policy, writes the updated
    policy and ends [granted], with no failure counted; in dry-run mode
    it ends [would_grant]. *)
Theorem failed_check_falls_through_to_grant :
  let normal := Args false "projects.txt" (Some "a@example.com") None
                     "roles/viewer" 100 false false in
  let dry := Args false "projects.txt" (Some "a@example.com") None
                  "roles/viewer" 100 true false in
  let st := State {[ "demo" := Iam.Policy None "BwYd" ]} 0 0 0 [] [] in
  let out := run (grant_iam_permission normal "demo" "user:a@example.com"
                                       "roles/viewer")
                 [Some "503 Service Unavailable"] st in
  let out_dry := run (grant_iam_permission dry "demo" "user:a@example.com"
                                           "roles/viewer")
                     [Some "503 Service Unavailable"] st in
  status (fst out) = granted
  /\ set_requests (snd out)
     = [("demo",
         Iam.Policy (Some [Iam.Binding "roles/viewer"
                                       (Some ["user:a@example.com"])])
                    "BwYd")]
  /\ success_count (snd out) = 1 /\ failure_count (snd out) = 0
  /\ errors_log (snd out)
     = ["Project: demo - Failed to check permissions: 503 Service Unavailable"]
  /\ status (fst out_dry) = would_grant
  /\ failure_count (snd out_dry) = 0.
Proof. cbv zeta. repeat split; vm_compute; reflexivity. Qed.

Lemma api_set_same_policy (f : fault) (pid : string) (body : Iam.policy)
    (st st' : state) (o : outcome unit) :
  api_set f pid body st = (o, st') ->
  policies st !! pid = Some body ->
  policies st' = policies st.
Proof.
  unfold api_set. intros H Hp. rewrite Hp in H.
  destruct f; injection H as _ <-; simpl; [reflexivity|].
  apply insert_id, Hp.
Qed.

(** On a project whose stored policy the update leaves as it is, a run
    changes no policy, whatever its requests answer. *)
Lemma rerun_keeps_policies (a : args) (pid member role_ : string)
    (fs : list fault) (st : state) (pol : Iam.policy) :
  policies st !! pid = Some pol ->
  Iam.add_binding pol member role_ = Returned pol ->
  policies (snd (run (grant_iam_permission a pid member role_) fs st))
  = policies st.
Proof.
  intros Hpol Hadd. run_task; simpl; try reflexivity.
  all: repeat match goal with
         | H : api_get _ _ _ = Returned _ |- _ =>
             apply api_get_returned in H as [_ H]; simpl in H;
             rewrite Hpol in H; injection H as <-
         end.
  all: match goal with
       | H : Iam.add_binding _ _ _ = Returned ?p |- _ =>
           is_var p; rewrite Hadd in H; injection H as <-
       end.
  all: match goal with
       | H : api_set _ _ _ _ = _ |- _ =>
           apply api_set_same_policy in H; [simpl in H; exact H|exact Hpol]
       end.
Qed.

(** C5, as amended.  When a run of the grant operation ends [granted], a
    second run right after it changes no stored policy, whatever its
    requests answer, so it adds neither a binding nor a member; and when
    its check request does not fail it ends [already_granted] and sends no
    write.  In the
    policy the first run wrote, the role has as many bindings as it had
    before, or one if it had none, and the first binding of the role lists
    the member as often as before, or once if it did not list the
    member. *)
Theorem grant_twice_is_idempotent
    (a : args) (pid member role_ : string) (fs1 : list fault) (st : state) :
  let first := run (grant_iam_permission a pid member role_) fs1 st in
  status (fst first) = granted ->
  (forall fs2,
      let second :=
        run (grant_iam_permission a pid member role_) fs2 (snd first) in
      policies (snd second) = policies (snd first)
      /\ (next_fault fs2 = None ->
          status (fst second) = already_granted
          /\ set_requests (snd second) = set_requests (snd first)))
  /\ exists pol pol',
       policies st !! pid = Some pol
       /\ policies (snd first) !! pid = Some pol'
       /\ Spec.role_entries (Iam.get_or_nil (Iam.bindings pol')) role_
          = Nat.max 1 (Spec.role_entries
                         (Iam.get_or_nil (Iam.bindings pol)) role_)
       /\ Spec.target_entries (Iam.get_or_nil (Iam.bindings pol'))
                              member role_
          = Nat.max 1 (Spec.target_entries
                         (Iam.get_or_nil (Iam.bindings pol)) member role_).
Proof.
  cbv zeta. intros Hgranted.
  destruct (granted_run a pid member role_ fs1 st Hgranted)
    as (pol & pol' & Hpol & Hadd & Hp1 & _ & _).
  destruct (add_binding_entries pol pol' member role_ Hadd)
    as (Hroles & Hmembers & Hm & _).
  assert (policies (snd (run (grant_iam_permission a pid member role_)
                             fs1 st)) !! pid = Some pol') as Hpol'.
  { rewrite Hp1. apply lookup_insert_eq. }
  split; [|exists pol, pol'; auto].
  intros fs2. split.
  - apply (rerun_keeps_policies a pid member role_ fs2 _ pol' Hpol').
    apply (add_binding_idempotent pol), Hadd.
  - intros Hf.
    rewrite (already_granted_run a pid member role_ fs2 _ pol' Hf Hpol' Hm).
    simpl. split; reflexivity.
Qed.

(** Two runs in a row on a project whose policy has no binding yet. *)
Lemma grant_twice_is_idempotent_witness :
  let a := Args false "projects.txt" (Some "a@example.com") None
                "roles/viewer" 100 false false in
  let st := State {[ "demo" := Iam.Policy None "BwYd" ]} 0 0 0 [] [] in
  let first := run (grant_iam_permission a "demo" "user:a@example.com"
                                         "roles/viewer") [] st in
  let second := run (grant_iam_permission a "demo" "user:a@example.com"
                                          "roles/viewer") [] (snd first) in
  status (fst first) = granted
  /\ next_fault [] = None
  /\ status (fst second) = already_granted
  /\ policies (snd second) = policies (snd first)
  /\ set_requests (snd second) = set_requests (snd first).
Proof.
  cbv zeta.
  assert (status (fst (run (grant_iam_permission
                              (Args false "projects.txt"
                                    (Some "a@example.com") None
                                    "roles/viewer" 100 false false)
                              "demo" "user:a@example.com" "roles/viewer")
                           []
                           (State {[ "demo" := Iam.Policy None "BwYd" ]}
                                  0 0 0 [] [])))
          = granted) as Hfirst by (vm_compute; reflexivity).
  split; [exact Hfirst|]. split; [reflexivity|].
  destruct (grant_twice_is_idempotent _ _ _ _ [] _ Hfirst) as [Hsecond _].
  destruct (Hsecond []) as [Hkeep Hok].
  destruct (Hok eq_refl) as [Hstatus Hreq].
  split; [exact Hstatus|]. split; [exact Hkeep|exact Hreq].
Defined.

(** C5, counterexample: the second run right after a run that ended
    [granted], with its check request failing.  It does not end
    [already_granted]: it ends [granted] again and sends a second write,
    of the policy that is stored already. *)
Lemma second_run_with_failed_check_is_granted_again :
  let a := Args false "projects.txt" (Some "a@example.com") None
                "roles/viewer" 100 false false in
  let st := State {[ "demo" := Iam.Policy None "BwYd" ]} 0 0 0 [] [] in
  let first := run (grant_iam_permission a "demo" "user:a@example.com"
                                         "roles/viewer") [] st in
  let second := run (grant_iam_permission a "demo" "user:a@example.com"
                                          "roles/viewer")
                    [Some "503 Service Unavailable"] (snd first) in
  status (fst first) = granted
  /\ status (fst second) = granted
  /\ status (fst second) <> already_granted
  /\ length (set_requests (snd first)) = 1
  /\ length (set_requests (snd second)) = 2
  /\ policies (snd second) !! "demo" = policies (snd first) !! "demo".
Proof.
  cbv zeta. repeat split; vm_compute; try reflexivity; discriminate.
Qed.

(** For every policy in which each role appears in at most one
    binding, the update of the grant operation, when it does not raise,
    yields a policy that still has at most one binding per role.  When a
    binding for the target role is present, the bindings keep their roles
    and order and only that binding changes: the member is appended to its
    member list unless the list has it.  Otherwise one new binding, with
    the role and the member alone, is appended.  The other fields of the
    policy are passed through.  A run of the grant operation that ends
    [granted] on a project with this policy sends that updated policy in
    its write, and the provider stores it. *)
Lemma add_binding_keeps_one_binding_per_role
    (p p' : Iam.policy) (member role_ : string) :
  NoDup (map Iam.role (Iam.get_or_nil (Iam.bindings p))) ->
  Iam.add_binding p member role_ = Returned p' ->
  let bs := Iam.get_or_nil (Iam.bindings p) in
  let bs' := Iam.get_or_nil (Iam.bindings p') in
  NoDup (map Iam.role bs')
  /\ Spec.role_entries bs' role_ = 1
  /\ Iam.etag p' = Iam.etag p
  /\ ((exists l1 b l2 ms,
         bs = l1 ++ b :: l2 /\ Iam.role b = role_ /\ Iam.members b = Some ms
         /\ bs' = l1 ++ Iam.Binding role_
                           (Some (if Py.contains member ms then ms
                                  else ms ++ [member])) :: l2)
      \/ (~ In role_ (map Iam.role bs)
          /\ bs' = bs ++ [Iam.Binding role_ (Some [member])]))
  /\ (forall a pid fs st,
        let out := run (grant_iam_permission a pid member role_) fs st in
        policies st !! pid = Some p ->
        status (fst out) = granted ->
        policies (snd out) !! pid = Some p'
        /\ set_requests (snd out) = set_requests st ++ [(pid, p')]).
Proof.
  intros Hnd Hadd. cbv zeta.
  assert (forall a pid fs st,
            policies st !! pid = Some p ->
            status (fst (run (grant_iam_permission a pid member role_) fs st))
            = granted ->
            policies (snd (run (grant_iam_permission a pid member role_)
                               fs st)) !! pid = Some p'
            /\ set_requests (snd (run (grant_iam_permission a pid member role_)
                                      fs st))
               = set_requests st ++ [(pid, p')]) as Hrun.
  { intros a pid fs st Hp Hg.
    destruct (granted_run a pid member role_ fs st Hg)
      as (pol & pol' & Hpol & Hadd' & Hstore & Hreq & _).
    assert (pol = p) as -> by congruence.
    assert (pol' = p') as -> by congruence.
    rewrite Hstore, Hreq. split; [apply lookup_insert_eq|reflexivity]. }
  assert (forall l, NoDup (map Iam.role l) -> In role_ (map Iam.role l) ->
                    Spec.role_entries l role_ = 1) as Hone.
  { unfold Spec.role_entries.
    induction l as [|b l IH]; simpl; [tauto|]. intros Hl Hin.
    apply NoDup_cons in Hl as [Hb Hl].
    destruct (String.eqb_spec (Iam.role b) role_) as [Hr|Hr].
    - simpl. f_equal. rewrite Hr in Hb.
      assert (Forall (fun x => Iam.role x <> role_) l) as Hf.
      { apply List.Forall_forall. intros x Hx Hrx. apply Hb.
        apply list_elem_of_In. rewrite <- Hrx. apply in_map, Hx. }
      apply (role_entries_none l member role_ Hf).
    - apply IH; [exact Hl|]. destruct Hin as [H|H]; [contradiction|exact H]. }
  unfold Iam.add_binding in Hadd.
  destruct (Iam.add_member (Iam.get_or_nil (Iam.bindings p)) member role_)
    as [[bs'|]|ex] eqn:E; try discriminate Hadd; injection Hadd as <-; simpl.
  - apply add_member_found in E
      as (l1 & b & l2 & ms & Hbs & Hl1 & Hb & Hms & ->).
    assert (map Iam.role
              (l1 ++ Iam.Binding role_
                       (Some (if Py.contains member ms then ms
                              else ms ++ [member])) :: l2)
            = map Iam.role (Iam.get_or_nil (Iam.bindings p))) as Hroles.
    { rewrite Hbs, !map_app. simpl. rewrite Hb. reflexivity. }
    split; [rewrite Hroles; exact Hnd|].
    split.
    + apply Hone; rewrite Hroles; [exact Hnd|]. rewrite Hbs, map_app.
      apply in_or_app. right. left. exact Hb.
    + split; [reflexivity|]. split; [|exact Hrun].
      left. exists l1, b, l2, ms. auto.
  - apply add_member_not_found in E.
    destruct (role_entries_none _ member role_ E) as (H1 & _ & Hnin & _).
    assert (NoDup (map Iam.role (Iam.get_or_nil (Iam.bindings p)
                                 ++ [Iam.Binding role_ (Some [member])])))
      as Hnd'.
    { rewrite map_app. simpl. apply NoDup_app. split; [exact Hnd|].
      split; [|apply NoDup_singleton].
      intros x Hx Hx'. apply list_elem_of_In in Hx.
      apply list_elem_of_singleton in Hx'. subst x. contradiction. }
    split; [exact Hnd'|]. split.
    + apply Hone; [exact Hnd'|]. rewrite map_app. apply in_or_app.
      right. left. reflexivity.
    + split; [reflexivity|]. split; [|exact Hrun]. right. auto.
Qed.

(** The loop over the bindings raises only at a binding of the role
    without a member list. *)
Lemma add_member_returns (bs : list Iam.binding) (member role_ : string) :
  (forall b, In b bs -> Iam.role b = role_ -> Iam.members b <> None) ->
  exists r, Iam.add_member bs member role_ = Returned r.
Proof.
  induction bs as [|b rest IH]; intros Hms; simpl; [eauto|].
  destruct (String.eqb_spec (Iam.role b) role_) as [Hr|Hr].
  - destruct (Iam.members b) as [ms|] eqn:Hb.
    + simpl. destruct (negb (Py.contains member ms)); eauto.
    + destruct (Hms b (or_introl eq_refl) Hr Hb).
  - destruct IH as [[r|] ->]; [|eauto..].
    intros x Hx. apply Hms. right. exact Hx.
Qed.

(** A run whose three requests are answered, outside the dry-run and
    check-only modes, on a project whose policy does not list the member
    under the role: the updated policy is written and stored, and the run
    ends [granted]. *)
Lemma answered_run_grants (a : args) (pid member role_ : string)
    (fs : list fault) (st : state) (p p' : Iam.policy) :
  dry_run a || check_only a = false ->
  policies st !! pid = Some p ->
  Iam.has_member (Iam.get_or_nil (Iam.bindings p)) member role_ = false ->
  Iam.add_binding p member role_ = Returned p' ->
  next_fault fs = None -> next_fault (tail fs) = None ->
  next_fault (tail (tail fs)) = None ->
  let out := run (grant_iam_permission a pid member role_) fs st in
  status (fst out) = granted
  /\ policies (snd out) !! pid = Some p'
  /\ set_requests (snd out) = set_requests st ++ [(pid, p')].
Proof.
  intros Hmode Hpol Hlacks Hadd Hf1 Hf2 Hf3. cbv zeta.
  assert (run (grant_iam_permission a pid member role_) fs st
          = (TaskResult pid granted ("Successfully granted " +:+ role_),
             bump Success (snd (api_set None pid p' st)))) as ->.
  { unfold grant_iam_permission, check_permission, try_except, bind_try,
      never_raises, getIamPolicy, setIamPolicy, increment, evaluate, return_.
    cbn [bind run]. unfold api_get at 1. rewrite Hf1, Hpol. cbn [bind run].
    rewrite Hlacks. cbn [is_True]. rewrite Hmode. cbn [bind run].
    unfold api_get. rewrite Hf2, Hpol. cbn [bind run].
    rewrite Hadd. cbn [bind run]. rewrite Hf3.
    unfold api_set. rewrite Hpol. reflexivity. }
  unfold api_set. rewrite Hpol. simpl. rewrite lookup_insert_eq. auto.
Qed.

(** X19.  For every policy in which each role appears in at most one
    binding, and whose binding of the target role, if there is one, has a
    member list, the update of the grant operation returns.  When a
    binding for the target role is present, the bindings keep their roles
    and order and only that binding changes: the member is appended to
    its member list unless the list has it.  Otherwise one new binding,
    with the role and the member alone, is appended.  Either way the
    updated policy lists the member under the role, has exactly one
    binding of the role and at most one of every role, and passes the
    other fields through.  A run of the grant operation whose requests
    are answered, outside the dry-run and check-only modes, on a project
    with this policy that does not list the member yet, ends [granted]
    with that updated policy written and stored; and every run that ends
    [granted] has written it. *)
Theorem add_binding_merges_or_appends
    (p : Iam.policy) (member role_ : string) :
  NoDup (map Iam.role (Iam.get_or_nil (Iam.bindings p))) ->
  (forall b, In b (Iam.get_or_nil (Iam.bindings p)) ->
             Iam.role b = role_ -> Iam.members b <> None) ->
  let bs := Iam.get_or_nil (Iam.bindings p) in
  exists bs',
    Iam.add_binding p member role_
    = Returned (Iam.Policy (Some bs') (Iam.etag p))
    /\ NoDup (map Iam.role bs')
    /\ Spec.role_entries bs' role_ = 1
    /\ Iam.has_member bs' member role_ = true
    /\ ((exists l1 b l2 ms,
           bs = l1 ++ b :: l2 /\ Iam.role b = role_
           /\ Iam.members b = Some ms
           /\ bs' = l1 ++ Iam.Binding role_
                             (Some (if Py.contains member ms then ms
                                    else ms ++ [member])) :: l2)
        \/ (~ In role_ (map Iam.role bs)
            /\ bs' = bs ++ [Iam.Binding role_ (Some [member])]))
    /\ (forall a pid fs st,
          let out := run (grant_iam_permission a pid member role_) fs st in
          policies st !! pid = Some p ->
          (status (fst out) = granted ->
           policies (snd out) !! pid
           = Some (Iam.Policy (Some bs') (Iam.etag p))
           /\ set_requests (snd out)
              = set_requests st
                ++ [(pid, Iam.Policy (Some bs') (Iam.etag p))])
          /\ (dry_run a || check_only a = false ->
              Iam.has_member bs member role_ = false ->
              next_fault fs = None -> next_fault (tail fs) = None ->
              next_fault (tail (tail fs)) = None ->
              status (fst out) = granted)).
Proof.
  intros Hnd Hms. cbv zeta.
  destruct (add_member_returns _ member role_ Hms) as [r Hr].
  assert (exists bs', Iam.add_binding p member role_
                      = Returned (Iam.Policy (Some bs') (Iam.etag p)))
    as [bs' Hadd].
  { unfold Iam.add_binding. rewrite Hr. destruct r; eauto. }
  exists bs'.
  destruct (add_binding_keeps_one_binding_per_role p _ member role_
              Hnd Hadd) as (H1 & H2 & _ & H4 & H5).
  destruct (add_binding_entries p _ member role_ Hadd) as (_ & _ & H6 & _).
  simpl in H1, H2, H4, H6.
  split; [exact Hadd|]. split; [exact H1|]. split; [exact H2|].
  split; [exact H6|]. split; [exact H4|].
  intros a pid fs st. cbv zeta. intros Hpol.
  split; [apply H5, Hpol|].
  intros Hmode Hlacks Hf1 Hf2 Hf3.
  apply (answered_run_grants a pid member role_ fs st p _ Hmode Hpol
           Hlacks Hadd Hf1 Hf2 Hf3).
Qed.

(** A policy with an owner binding and a viewer binding: a second viewer
    is merged into the viewer binding, and an editor gets a binding of
    its own at the end. *)
Lemma add_binding_merges_or_appends_witness :
  let p :=
    Iam.Policy
      (Some [Iam.Binding "roles/owner" (Some ["user:o@example.com"]);
             Iam.Binding "roles/viewer" (Some ["user:v@example.com"])])
      "BwYd" in
  NoDup (map Iam.role (Iam.get_or_nil (Iam.bindings p)))
  /\ (forall b, In b (Iam.get_or_nil (Iam.bindings p)) ->
                Iam.role b = "roles/viewer" -> Iam.members b <> None)
  /\ Iam.add_binding p "user:a@example.com" "roles/viewer"
     = Returned
         (Iam.Policy
            (Some [Iam.Binding "roles/owner" (Some ["user:o@example.com"]);
                   Iam.Binding "roles/viewer"
                     (Some ["user:v@example.com"; "user:a@example.com"])])
            "BwYd")
  /\ Iam.add_binding p "user:a@example.com" "roles/editor"
     = Returned
         (Iam.Policy
            (Some [Iam.Binding "roles/owner" (Some ["user:o@example.com"]);
                   Iam.Binding "roles/viewer" (Some ["user:v@example.com"]);
                   Iam.Binding "roles/editor" (Some ["user:a@example.com"])])
            "BwYd")
  /\ exists bs',
       Iam.add_binding p "user:a@example.com" "roles/viewer"
       = Returned (Iam.Policy (Some bs') "BwYd")
       /\ NoDup (map Iam.role bs')
       /\ Iam.has_member bs' "user:a@example.com" "roles/viewer" = true.
Proof.
  cbv zeta.
  assert (NoDup (map Iam.role
                   [Iam.Binding "roles/owner" (Some ["user:o@example.com"]);
                    Iam.Binding "roles/viewer" (Some ["user:v@example.com"])]))
    as Hnd.
  { simpl. apply NoDup_cons. split.
    - intros H. apply list_elem_of_singleton in H. discriminate.
    - apply NoDup_singleton. }
  assert (forall b,
            In b [Iam.Binding "roles/owner" (Some ["user:o@example.com"]);
                  Iam.Binding "roles/viewer" (Some ["user:v@example.com"])] ->
            Iam.role b = "roles/viewer" -> Iam.members b <> None) as Hms.
  { intros b [<-|[<-|[]]] _; discriminate. }
  split; [exact Hnd|]. split; [exact Hms|].
  split; [reflexivity|]. split; [reflexivity|].
  destruct (add_binding_merges_or_appends
              (Iam.Policy
                 (Some [Iam.Binding "roles/owner"
                                    (Some ["user:o@example.com"]);
                        Iam.Binding "roles/viewer"
                                    (Some ["user:v@example.com"])])
                 "BwYd")
              "user:a@example.com" "roles/viewer" Hnd Hms)
    as (bs' & Hadd & Hnd' & _ & Hhas & _).
  exists bs'. split; [exact Hadd|]. split; [exact Hnd'|exact Hhas].
Defined.

(** C9: a policy with one binding per role whose viewer binding has no
    ['members'] key.  The update does not merge the member into that
    binding: it raises the [KeyError] of [binding['members']], although
    the test on the line before reads the same key with a default; the
    run ends [failed], sends no write and leaves the policy as it was. *)
Theorem add_binding_raises_on_binding_without_members :
  let p :=
    Iam.Policy
      (Some [Iam.Binding "roles/owner" (Some ["user:o@example.com"]);
             Iam.Binding "roles/viewer" None])
      "BwYd" in
  let a := Args false "projects.txt" (Some "a@example.com") None
                "roles/viewer" 100 false false in
  let st := State {[ "demo" := p ]} 0 0 0 [] [] in
  let out := run (grant_iam_permission a "demo" "user:a@example.com"
                                       "roles/viewer") [] st in
  Spec.role_entries (Iam.get_or_nil (Iam.bindings p)) "roles/owner" = 1
  /\ Spec.role_entries (Iam.get_or_nil (Iam.bindings p)) "roles/viewer" = 1
  /\ Iam.add_binding p "user:a@example.com" "roles/viewer"
     = Raised "'members'"
  /\ status (fst out) = failed
  /\ message (fst out) = "'members'"
  /\ set_requests (snd out) = []
  /\ failure_count (snd out) = 1
  /\ policies (snd out) !! "demo" = Some p.
Proof. cbv zeta. repeat split; vm_compute; reflexivity. Qed.
End TaskFacts.

(** ** The member and the confirmation gate *)

Section ProgramFacts.
Import Granter.

Lemma truthy_some (s : string) : s <> "" -> Py.truthy (Some s) = true.
Proof. destruct s; [contradiction|reflexivity]. Qed.

Lemma current_user_nonempty (cred : credential)
    (info : outcome (option string)) (member : string) :
  get_current_user_email cred info = Some member ->
  Py.nonempty member = true.
Proof.
  unfold get_current_user_email.
  destruct (service_account_email cred); [intros [= <-]; reflexivity|].
  destruct (_service_account_email cred); [intros [= <-]; reflexivity|].
  destruct info as [email|ex]; [|discriminate].
  destruct (Py.truthy email); [intros [= <-]; reflexivity|discriminate].
Qed.

Lemma member_exit_status (a : args) (cred : credential)
    (info : outcome (option string)) (code : Z) :
  get_member_identifier a cred info = Exit code -> code = 1%Z.
Proof.
  unfold get_member_identifier. repeat case_match; congruence.
Qed.

Lemma projects_exit_status (a : args) (env : environment) (code : Z) :
  (if all_projects a then get_all_projects (project_listing env)
   else get_projects_from_file (files env) (projects_file a)) = Exit code ->
  code = 1%Z.
Proof.
  unfold get_all_projects, get_projects_from_file.
  repeat case_match; congruence.
Qed.

(** C10.  A user email that is supplied (given and not empty) decides the
    member, [user:] followed by the email, whatever the service account
    argument is; the member depends on the caller's own credential only
    when neither a user email nor a service account is supplied, and then
    it is the caller's resolved identity, or the run ends with status 1
    when there is none. *)
Theorem user_email_takes_precedence
    (a : args) (cred : credential) (info : outcome (option string)) :
  (forall user, user_email a = Some user -> user <> "" ->
     get_member_identifier a cred info = Continue ("user:" +:+ user))
  /\ (forall cred' info',
        get_member_identifier a cred' info'
        <> get_member_identifier a cred info ->
        Py.truthy (user_email a) = false
        /\ Py.truthy (service_account a) = false)
  /\ (Py.truthy (user_email a) = false ->
      Py.truthy (service_account a) = false ->
      get_member_identifier a cred info
      = match get_current_user_email cred info with
        | Some member => Continue member
        | None => Exit 1%Z
        end).
Proof.
  unfold get_member_identifier. split; [|split].
  - intros user Hu Hne. rewrite Hu, (truthy_some user Hne). reflexivity.
  - intros cred' info'.
    destruct (Py.truthy (user_email a)); [congruence|].
    destruct (Py.truthy (service_account a)); [congruence|]. auto.
  - intros -> ->.
    destruct (get_current_user_email cred info) as [member|] eqn:E;
      [|reflexivity].
    rewrite (current_user_nonempty _ _ _ E). reflexivity.
Qed.

(** Both [--user] and [--service-account] on the command line. *)
Lemma user_email_takes_precedence_witness :
  let a := Args true "projects.txt" (Some "alice@example.com")
                (Some "sa@demo.iam.gserviceaccount.com") "roles/viewer"
                100 false false in
  user_email a = Some "alice@example.com"
  /\ "alice@example.com" <> ""
  /\ get_member_identifier a (Credential (Some "caller@example.com") None)
                           (Raised "unused")
     = Continue "user:alice@example.com".
Proof.
  cbv zeta. split; [reflexivity|]. split; [discriminate|].
  apply (user_email_takes_precedence
           (Args true "projects.txt" (Some "alice@example.com")
                 (Some "sa@demo.iam.gserviceaccount.com") "roles/viewer"
                 100 false false)
           (Credential (Some "caller@example.com") None) (Raised "unused")).
  - reflexivity.
  - discriminate.
Defined.

(** C2, as amended.  In a run that is neither dry-run nor check-only, an
    answer to the prompt whose lower-case form is not [yes] ends the run
    before the executor starts: no write is sent, no policy changes, the
    counters and the error log stay empty, no file is written, and the
    exit status is 0 when the prompt was reached (1 only when the set-up
    failed before it). *)
Theorem declined_confirmation_aborts_with_status_zero
    (a : args) (env : environment) (iam : gmap string Iam.policy) :
  dry_run a = false -> check_only a = false ->
  Py.lower (answer env) <> "yes" ->
  let out := script a env iam in
  final_state out = State iam 0 0 0 [] []
  /\ final_files out = files env
  /\ (exit_status out = 0%Z \/ exit_status out = 1%Z)
  /\ (forall cred member projects,
        (1 <= max_workers a <= 1000)%Z ->
        credentials env = Some cred ->
        get_member_identifier a cred (userinfo env) = Continue member ->
        (if all_projects a then get_all_projects (project_listing env)
         else get_projects_from_file (files env) (projects_file a))
        = Continue projects ->
        projects <> [] ->
        exit_status out = 0%Z).
Proof.
  intros Hdry Hcheck Hno. cbv zeta.
  apply String.eqb_neq in Hno. unfold script, main.
  rewrite Hdry, Hcheck, Hno. simpl negb. simpl andb.
  split; [|split; [|split]].
  - repeat case_match; reflexivity.
  - repeat case_match; reflexivity.
  - destruct ((max_workers a <? 1)%Z || (1000 <? max_workers a)%Z);
      [auto|].
    destruct (credentials env) as [cred|]; [|auto].
    destruct (get_member_identifier a cred (userinfo env)) as [member|code]
      eqn:Hm; [|apply member_exit_status in Hm; subst; auto].
    destruct (if all_projects a then get_all_projects (project_listing env)
              else get_projects_from_file (files env) (projects_file a))
      as [[|p ps]|code] eqn:Hp; simpl; auto.
    apply projects_exit_status in Hp. subst. auto.
  - intros cred member projects [Hlo Hhi] Hcred Hmember Hprojects Hne.
    assert ((max_workers a <? 1)%Z || (1000 <? max_workers a)%Z = false)
      as -> by lia.
    rewrite Hcred, Hmember, Hprojects.
    destruct projects; [contradiction|reflexivity].
Qed.

(** The operator answers [no] to the prompt of a run over one project. *)
Lemma declined_confirmation_aborts_with_status_zero_witness :
  let a := Args false "projects.txt" (Some "a@example.com") None
                "roles/viewer" 100 false false in
  let env := Environment (Some (Credential None None)) (Raised "unused")
               (Listing.LastPage None) {[ "projects.txt" := "demo" ]}
               "no" (fun t => (t, None)) (fun _ => true) in
  let iam : gmap string Iam.policy := {[ "demo" := Iam.Policy None "BwYd" ]} in
  dry_run a = false /\ check_only a = false
  /\ Py.lower (answer env) <> "yes"
  /\ final_state (script a env iam) = State iam 0 0 0 [] [].
Proof.
  cbv zeta. split; [reflexivity|]. split; [reflexivity|].
  split; [vm_compute; discriminate|].
  apply (declined_confirmation_aborts_with_status_zero
           (Args false "projects.txt" (Some "a@example.com") None
                 "roles/viewer" 100 false false)
           (Environment (Some (Credential None None)) (Raised "unused")
              (Listing.LastPage None) {[ "projects.txt" := "demo" ]}
              "no" (fun t => (t, None)) (fun _ => true))
           {[ "demo" := Iam.Policy None "BwYd" ]});
    [reflexivity|reflexivity|vm_compute; discriminate].
Defined.

(** C2, counterexample: the operator answers [no]; the run reaches the
    prompt, sends no write and ends with exit status 0, not a non-zero
    one. *)
Lemma declined_confirmation_exit_status_is_zero :
  let a := Args false "projects.txt" (Some "a@example.com") None
                "roles/viewer" 100 false false in
  let env := Environment (Some (Credential None None)) (Raised "unused")
               (Listing.LastPage None) {[ "projects.txt" := "demo" ]}
               "no" (fun t => (t, None)) (fun _ => true) in
  let iam : gmap string Iam.policy := {[ "demo" := Iam.Policy None "BwYd" ]} in
  exit_status (script a env iam) = 0%Z
  /\ set_requests (final_state (script a env iam)) = []
  /\ ~ (exit_status (script a env iam) <> 0%Z).
Proof.
  cbv zeta.
  assert (exit_status
            (script
               (Args false "projects.txt" (Some "a@example.com") None
                     "roles/viewer" 100 false false)
               (Environment (Some (Credential None None))
                  (Raised "unused") (Listing.LastPage None)
                  {[ "projects.txt" := "demo" ]} "no"
                  (fun t => (t, None)) (fun _ => true))
               {[ "demo" := Iam.Policy None "BwYd" ]}) = 0%Z) as H
    by (vm_compute; reflexivity).
  split; [exact H|]. split; [vm_compute; reflexivity|].
  intros Hne. apply Hne, H.
Qed.
End ProgramFacts.

(** * Further properties *)

(** ** The check and the grant operation run alone *)

Section OperationFacts.
Import Granter.

Ltac run_op :=
  unfold grant_iam_permission, check_permission, try_except, bind_try,
    never_raises, getIamPolicy, setIamPolicy, increment, evaluate, return_;
  cbn [bind run];
  repeat (case_match; cbn [bind run fst snd]).

Lemma api_get_raised (f : fault) (pid : string) (st : state) (ex : string) :
  api_get f pid st = Raised ex ->
  f = Some ex \/ (f = None /\ policies st !! pid = None).
Proof.
  unfold api_get. destruct f as [e|]; [intros [= ->]; auto|].
  destruct (policies st !! pid); [discriminate|]. auto.
Qed.

(** X1.  [check_permission] never raises, sends no write and changes no
    policy and no counter.  It answers [Some b] exactly when its request
    is answered, [b] telling whether the stored policy lists the member
    under the role, and then logs nothing; when the request fails it
    answers [None] and appends one entry to the error log, which names
    the project and the error. *)
Theorem check_permission_answers_or_logs
    (pid member role_ : string) (fs : list fault) (st : state) :
  let out := run (check_permission pid member role_) fs st in
  policies (snd out) = policies st
  /\ set_requests (snd out) = set_requests st
  /\ tally_of_state (snd out) = tally_of_state st
  /\ match fst out with
     | Some b =>
         errors_log (snd out) = errors_log st
         /\ next_fault fs = None
         /\ exists pol,
              policies st !! pid = Some pol
              /\ b = Iam.has_member (Iam.get_or_nil (Iam.bindings pol))
                                    member role_
     | None =>
         exists ex,
           errors_log (snd out)
           = errors_log st
             ++ ["Project: " +:+ pid
                 +:+ " - Failed to check permissions: " +:+ ex]
           /\ (next_fault fs = Some ex
               \/ (next_fault fs = None /\ policies st !! pid = None))
     end.
Proof.
  cbv zeta. run_op; simpl.
  - match goal with
    | H : api_get _ _ _ = Returned _ |- _ =>
        apply api_get_returned in H as [Hf Hp]
    end.
    repeat split; eauto.
  - match goal with
    | H : api_get _ _ _ = Raised _ |- _ => apply api_get_raised in H
    end.
    repeat split; eauto.
Qed.

Lemma api_set_effect (f : fault) (pid : string) (body : Iam.policy)
    (st st' : state) (o : outcome unit) :
  api_set f pid body st = (o, st') ->
  set_requests st' = set_requests st ++ [(pid, body)]
  /\ errors_log st' = errors_log st
  /\ tally_of_state st' = tally_of_state st
  /\ match o with
     | Returned _ => policies st' = <[pid := body]> (policies st)
     | Raised _ => policies st' = policies st
     end.
Proof.
  unfold api_set. destruct f; [intros [= <- <-]; auto|].
  destruct (policies st !! pid); intros [= <- <-]; auto.
Qed.

(** X2.  Whatever its requests answer, a run of the grant operation
    returns a result for its own project; the three counters grow by
    exactly the increment of the status returned ([would_grant] counts
    nowhere); the error log only grows, and a [failed] result leaves as
    its last entry the project and the message of the result; at most one
    write is sent, to the project itself: exactly one when the result is
    [granted], none when it is [already_granted] or [would_grant]. *)
Theorem grant_outcome_accounting
    (a : args) (pid member role_ : string) (fs : list fault) (st : state) :
  let out := run (grant_iam_permission a pid member role_) fs st in
  let r := fst out in
  project_id r = pid
  /\ tally_of_state (snd out)
     = tally_add (tally_of_state st) (tally_of_status (status r))
  /\ (exists logged,
        errors_log (snd out) = errors_log st ++ logged
        /\ (status r = failed ->
            last logged
            = Some ("Project: " +:+ pid +:+ " - " +:+ message r)))
  /\ (exists sent,
        set_requests (snd out) = set_requests st ++ sent
        /\ length sent <= 1
        /\ Forall (fun w => fst w = pid) sent
        /\ (status r = granted -> length sent = 1)
        /\ (status r = already_granted \/ status r = would_grant ->
            sent = [])).
Proof.
  cbv zeta. run_op.
  all: repeat match goal with
         | H : api_set _ _ _ _ = _ |- _ =>
             apply api_set_effect in H as (? & ? & ? & _)
         end.
  all: simpl in *.
  all: repeat match goal with
         | H : set_requests _ = _ |- _ => rewrite H
         | H : errors_log _ = _ |- _ => rewrite H
         end.
  all: split; [reflexivity|].
  all: split;
    [repeat match goal with
            | H : tally_of_state _ = _ |- _ =>
                unfold tally_of_state in H; simpl in H;
                injection H as -> -> ->
            end;
     unfold tally_of_state, tally_add; simpl; f_equal; lia|].
  all: split.
  all: try (rewrite <- ?app_assoc; eexists; split; [reflexivity|];
            simpl; intros; first [discriminate|reflexivity]).
  all: try (eexists []; rewrite app_nil_r; split; [reflexivity|];
            simpl; intros; first [discriminate|reflexivity]).
  all: try (eexists []; rewrite app_nil_r; split; [reflexivity|];
            simpl; repeat split; auto; try lia; intros; try discriminate;
            intuition discriminate).
  all: try (eexists [_]; split; [reflexivity|];
            simpl; repeat split; auto; try lia; intros; try discriminate;
            intuition discriminate).
Qed.

Lemma add_member_raises (bs : list Iam.binding) (member role_ : string)
    (b : Iam.binding) :
  List.find (fun x => String.eqb (Iam.role x) role_) bs = Some b ->
  Iam.members b = None ->
  Iam.add_member bs member role_ = Raised "'members'".
Proof.
  induction bs as [|x rest IH]; simpl; [discriminate|].
  destruct (String.eqb (Iam.role x) role_).
  - intros [= ->] Hm. rewrite Hm. reflexivity.
  - intros Hf Hm. rewrite (IH Hf Hm). reflexivity.
Qed.

(** X3.  Outside the dry-run and check-only modes, on a project whose
    first binding of the role has no member list (and whose policy does
    not list the member under the role elsewhere), a run whose requests
    are answered ends [failed] with the message of the missing key: the
    update raises before the write, so no write is sent, no policy
    changes, and one failure is counted. *)
Theorem grant_fails_on_binding_without_members
    (a : args) (pid member role_ : string) (fs : list fault) (st : state)
    (pol : Iam.policy) (b : Iam.binding) :
  dry_run a || check_only a = false ->
  policies st !! pid = Some pol ->
  List.find (fun x => String.eqb (Iam.role x) role_)
            (Iam.get_or_nil (Iam.bindings pol)) = Some b ->
  Iam.members b = None ->
  Iam.has_member (Iam.get_or_nil (Iam.bindings pol)) member role_ = false ->
  next_fault fs = None -> next_fault (tail fs) = None ->
  let out := run (grant_iam_permission a pid member role_) fs st in
  status (fst out) = failed
  /\ message (fst out) = "'members'"
  /\ set_requests (snd out) = set_requests st
  /\ policies (snd out) = policies st
  /\ failure_count (snd out) = S (failure_count st)
  /\ errors_log (snd out)
     = errors_log st ++ ["Project: " +:+ pid +:+ " - 'members'"].
Proof.
  intros Hmode Hpol Hfind Hnone Hlacks Hf1 Hf2. cbv zeta.
  pose proof (add_member_raises _ member role_ b Hfind Hnone) as Hraise.
  assert (run (grant_iam_permission a pid member role_) fs st
          = (TaskResult pid failed "'members'",
             log_error ("Project: " +:+ pid +:+ " - 'members'")
                       (bump Failure st))) as ->.
  { unfold grant_iam_permission, check_permission, try_except, bind_try,
      never_raises, getIamPolicy, setIamPolicy, increment, evaluate, return_.
    cbn [bind run]. unfold api_get at 1. rewrite Hf1, Hpol. cbn [bind run].
    rewrite Hlacks. cbn [is_True]. rewrite Hmode. cbn [bind run].
    unfold api_get. rewrite Hf2, Hpol. cbn [bind run].
    unfold Iam.add_binding. rewrite Hraise. reflexivity. }
  repeat split.
Qed.

(** An owner-only binding list for the role, with the members key gone. *)
Lemma grant_fails_on_binding_without_members_witness :
  let a := Args false "projects.txt" (Some "a@example.com") None
                "roles/viewer" 100 false false in
  let pol := Iam.Policy (Some [Iam.Binding "roles/viewer" None]) "BwYd" in
  let st := State {[ "demo" := pol ]} 0 0 0 [] [] in
  let out := run (grant_iam_permission a "demo" "user:a@example.com"
                                       "roles/viewer") [] st in
  dry_run a || check_only a = false
  /\ policies st !! "demo" = Some pol
  /\ status (fst out) = failed
  /\ set_requests (snd out) = [].
Proof.
  cbv zeta. split; [reflexivity|].
  assert (policies (State {[ "demo" := Iam.Policy
                                         (Some [Iam.Binding "roles/viewer"
                                                            None]) "BwYd" ]}
                          0 0 0 [] []) !! "demo"
          = Some (Iam.Policy (Some [Iam.Binding "roles/viewer" None]) "BwYd"))
    as Hpol by (simpl; apply lookup_singleton_eq).
  split; [exact Hpol|].
  destruct (grant_fails_on_binding_without_members
              (Args false "projects.txt" (Some "a@example.com") None
                    "roles/viewer" 100 false false)
              "demo" "user:a@example.com" "roles/viewer" [] _ _
              (Iam.Binding "roles/viewer" None)
              eq_refl Hpol eq_refl eq_refl eq_refl eq_refl eq_refl)
    as (Hs & _ & Hr & _).
  split; [exact Hs|exact Hr].
Defined.
End OperationFacts.

(** ** What the policy update keeps *)

Lemma has_member_existsb (bs : list Iam.binding) (member role_ : string) :
  Iam.has_member bs member role_
  = existsb (fun b => String.eqb (Iam.role b) role_
                      && Py.contains member (Iam.get_or_nil (Iam.members b)))
            bs.
Proof.
  induction bs as [|b rest IH]; simpl; [reflexivity|]. rewrite IH.
  destruct (String.eqb (Iam.role b) role_); simpl; [|reflexivity].
  destruct (Py.contains member (Iam.get_or_nil (Iam.members b))); reflexivity.
Qed.

(** X4.  The policy update revokes nothing: every member that the policy
    lists under any role is still listed under that role afterwards, and
    the bindings of the other roles are passed through as they are, in the
    same order. *)
Theorem add_binding_revokes_nothing
    (p p' : Iam.policy) (member role_ : string) :
  Iam.add_binding p member role_ = Returned p' ->
  let bs := Iam.get_or_nil (Iam.bindings p) in
  let bs' := Iam.get_or_nil (Iam.bindings p') in
  (forall member' role',
      Iam.has_member bs member' role' = true ->
      Iam.has_member bs' member' role' = true)
  /\ List.filter (fun b => negb (String.eqb (Iam.role b) role_)) bs'
     = List.filter (fun b => negb (String.eqb (Iam.role b) role_)) bs
  /\ length bs <= length bs'.
Proof.
  unfold Iam.add_binding. cbv zeta.
  destruct (Iam.add_member (Iam.get_or_nil (Iam.bindings p)) member role_)
    as [[bs'|]|ex] eqn:E; intros [= <-]; simpl.
  - apply add_member_found in E
      as (l1 & b & l2 & ms & -> & _ & Hb & Hms & ->).
    split; [|split].
    + intros member' role'. rewrite !has_member_existsb, !existsb_app.
      simpl. rewrite Hb, Hms. simpl.
      destruct (existsb _ l1); [reflexivity|]. simpl.
      destruct (existsb _ l2); [intros _; apply orb_true_r|].
      rewrite !orb_false_r.
      destruct (String.eqb role_ role'); [|discriminate]. simpl.
      intros Hc. destruct (Py.contains member ms); [exact Hc|].
      apply contains_In, in_or_app. left. apply contains_In, Hc.
    + rewrite !List.filter_app. simpl. rewrite Hb, String.eqb_refl.
      reflexivity.
    + rewrite !length_app. simpl. lia.
  - split; [|split].
    + intros member' role'. rewrite !has_member_existsb, existsb_app.
      intros ->. reflexivity.
    + rewrite List.filter_app. simpl. rewrite String.eqb_refl. simpl.
      apply app_nil_r.
    + rewrite length_app. simpl. lia.
Qed.

(** An owner keeps the role when a viewer is added. *)
Lemma add_binding_revokes_nothing_witness :
  let p := Iam.Policy
             (Some [Iam.Binding "roles/owner" (Some ["user:o@example.com"])])
             "BwYd" in
  let p' := Iam.Policy
              (Some [Iam.Binding "roles/owner" (Some ["user:o@example.com"]);
                     Iam.Binding "roles/viewer"
                                 (Some ["user:a@example.com"])])
              "BwYd" in
  Iam.add_binding p "user:a@example.com" "roles/viewer" = Returned p'
  /\ Iam.has_member (Iam.get_or_nil (Iam.bindings p'))
                    "user:o@example.com" "roles/owner" = true.
Proof.
  cbv zeta. split; [reflexivity|].
  destruct (add_binding_revokes_nothing
              (Iam.Policy
                 (Some [Iam.Binding "roles/owner"
                                    (Some ["user:o@example.com"])])
                 "BwYd")
              _ "user:a@example.com" "roles/viewer" eq_refl) as [Hkeep _].
  apply Hkeep. reflexivity.
Defined.

(** ** The granter as a program *)

Section GranterProgramFacts.
Import Granter.

(** X5.  Whenever the member is resolved, it carries a kind tag: it starts
    with [user:] or with [serviceAccount:], whether it comes from the
    command line or from the caller's own credential; and a credential
    that has a service account email decides the caller's identity
    without the user-info request. *)
Theorem member_identifier_is_tagged
    (a : args) (cred : credential) (info : outcome (option string))
    (member : string) :
  get_member_identifier a cred info = Continue member ->
  (Lister.is_prefix "user:" member = true
   \/ Lister.is_prefix "serviceAccount:" member = true)
  /\ (forall e info',
        service_account_email cred = Some e ->
        get_current_user_email cred info'
        = Some ("serviceAccount:" +:+ e)).
Proof.
  intros H. split.
  - unfold get_member_identifier, get_current_user_email in H.
    repeat case_match; simplify_eq; auto.
  - intros e info' He. unfold get_current_user_email. rewrite He.
    reflexivity.
Qed.

(** The caller is a user account and nothing is given on the command
    line. *)
Lemma member_identifier_is_tagged_witness :
  let a := Args true "projects.txt" None None "roles/viewer" 100 false
                false in
  get_member_identifier a (Credential None None)
                        (Returned (Some "me@example.com"))
  = Continue "user:me@example.com"
  /\ (Lister.is_prefix "user:" "user:me@example.com" = true
      \/ Lister.is_prefix "serviceAccount:" "user:me@example.com" = true).
Proof.
  cbv zeta. split; [reflexivity|].
  apply (member_identifier_is_tagged
           (Args true "projects.txt" None None "roles/viewer" 100 false
                 false)
           (Credential None None) (Returned (Some "me@example.com"))).
  reflexivity.
Defined.





(** X7.  The answer to the prompt matters only to a run that would write,
    and only through whether its lower-case form is [yes]: in dry-run or
    check-only mode the run is the same whatever the answer is, and
    outside these modes two answers that both confirm (such as [yes] and
    [YES]) give the same run. *)
Theorem prompt_matters_only_by_its_lower_case
    (a : args) (env : environment) (other : string)
    (iam : gmap string Iam.policy) :
  let env' := Environment (credentials env) (userinfo env)
                (project_listing env) (files env) other (schedule env)
                (can_write env) in
  (dry_run a || check_only a = true -> script a env' iam = script a env iam)
  /\ (Py.lower (answer env) = "yes" -> Py.lower other = "yes" ->
      script a env' iam = script a env iam).
Proof.
  cbv zeta. split.
  - intros Hdry. unfold script, main. simpl.
    assert (negb (dry_run a) && negb (check_only a) = false) as ->.
    { destruct (dry_run a), (check_only a); simpl in *; congruence. }
    reflexivity.
  - intros H1 H2. unfold script, main. simpl. rewrite H1, H2. reflexivity.
Qed.

(** The operator answers [YES] where the other run has [yes]. *)
Lemma prompt_matters_only_by_its_lower_case_witness :
  let a := Args false "projects.txt" (Some "a@example.com") None
                "roles/viewer" 100 false false in
  let env := Environment (Some (Credential None None)) (Raised "unused")
               (Listing.LastPage None) {[ "projects.txt" := "demo" ]}
               "yes" (fun t => (t, None)) (fun _ => true) in
  let env' := Environment (Some (Credential None None)) (Raised "unused")
                (Listing.LastPage None) {[ "projects.txt" := "demo" ]}
                "YES" (fun t => (t, None)) (fun _ => true) in
  Py.lower (answer env) = "yes" /\ Py.lower "YES" = "yes"
  /\ script a env' {[ "demo" := Iam.Policy None "BwYd" ]}
     = script a env {[ "demo" := Iam.Policy None "BwYd" ]}.
Proof.
  cbv zeta. split; [reflexivity|]. split; [reflexivity|].
  destruct (prompt_matters_only_by_its_lower_case
              (Args false "projects.txt" (Some "a@example.com") None
                    "roles/viewer" 100 false false)
              (Environment (Some (Credential None None)) (Raised "unused")
                 (Listing.LastPage None) {[ "projects.txt" := "demo" ]}
                 "yes" (fun t => (t, None)) (fun _ => true))
              "YES" {[ "demo" := Iam.Policy None "BwYd" ]}) as [_ H].
  apply H; reflexivity.
Defined.
End GranterProgramFacts.

(** ** More on the pattern filter *)

Section MoreFilterFacts.
Variable re_search : string -> string -> outcome bool.

Lemma filter_split_perm {A : Type} (f : A -> bool) (l : list A) :
  List.filter f l ++ List.filter (fun x => negb (f x)) l ≡ₚ l.
Proof.
  induction l as [|x r IH]; simpl; [reflexivity|].
  destruct (f x); simpl.
  - rewrite IH. reflexivity.
  - rewrite <- Permutation_middle, IH. reflexivity.
Qed.

(** X8.  With patterns that compile, the filter loses no project and
    invents none: the kept and the excluded projects together are the
    input, each project as often as the input has it, so the two counts
    add up to the number of projects found. *)
Theorem filter_projects_loses_nothing
    (projects kept excluded : list Lister.project)
    (include_pattern exclude_pattern : option string) :
  Spec.compiles re_search include_pattern ->
  Spec.compiles re_search exclude_pattern ->
  Lister.filter_projects re_search projects include_pattern exclude_pattern
  = Returned (kept, excluded) ->
  kept ++ excluded ≡ₚ projects
  /\ length kept + length excluded = length projects
  /\ (forall p, In p kept -> ~ In p excluded).
Proof.
  intros Hi He. unfold Lister.filter_projects.
  rewrite (filter_loop_spec _ _ _ Hi He). simpl. intros [= <- <-].
  pose proof (filter_split_perm
                (Spec.keeps re_search include_pattern exclude_pattern)
                projects) as Hp.
  split; [exact Hp|]. split.
  - rewrite <- length_app. apply Permutation_length, Hp.
  - intros p Hk Hx. apply List.filter_In in Hk as [_ Hk].
    apply List.filter_In in Hx as [_ Hx]. rewrite Hk in Hx. discriminate.
Qed.

Lemma filter_loop_bad_include
    (include_pattern exclude_pattern : option string)
    (projects filtered excluded : list Lister.project) :
  Py.truthy include_pattern = true ->
  (forall s, exists ex,
      re_search (Py.to_str include_pattern) s = Raised ex) ->
  Spec.compiles re_search exclude_pattern ->
  if forallb (fun p => Spec.found re_search exclude_pattern (Lister.id p))
             projects
  then Lister.filter_loop re_search include_pattern exclude_pattern
         projects filtered excluded
       = Returned (filtered, excluded ++ projects)
  else exists ex,
      Lister.filter_loop re_search include_pattern exclude_pattern
        projects filtered excluded = Raised ex.
Proof.
  intros Ht Hbad He. revert filtered excluded.
  induction projects as [|p rest IH]; intros filtered excluded; simpl.
  - rewrite app_nil_r. reflexivity.
  - rewrite (matches_exclude_found _ _ He).
    destruct (Spec.found re_search exclude_pattern (Lister.id p)); simpl.
    + specialize (IH filtered (excluded ++ [p])).
      destruct (forallb _ rest); [|exact IH].
      rewrite IH, <- app_assoc. reflexivity.
    + unfold Lister.misses_include.
      destruct include_pattern as [[|c r]|]; try discriminate.
      simpl. destruct (Hbad (Lister.id p)) as (ex & Hex). simpl in Hex.
      rewrite Hex. eauto.
Qed.

(** X9.  An include pattern that does not compile raises only when a
    project reaches it: when the exclude pattern takes every project (and
    so for an empty list), the filter returns with nothing kept and
    everything excluded, and the bad pattern goes unnoticed; as soon as
    one project passes the exclusion, the filter raises. *)
Theorem bad_include_pattern_raises_at_first_passing_project
    (projects : list Lister.project)
    (include_pattern exclude_pattern : option string) :
  Py.truthy include_pattern = true ->
  (forall s, exists ex,
      re_search (Py.to_str include_pattern) s = Raised ex) ->
  Spec.compiles re_search exclude_pattern ->
  if forallb (fun p => Spec.found re_search exclude_pattern (Lister.id p))
             projects
  then Lister.filter_projects re_search projects include_pattern
         exclude_pattern = Returned ([], projects)
  else exists ex,
      Lister.filter_projects re_search projects include_pattern
        exclude_pattern = Raised ex.
Proof.
  intros Ht Hbad He. unfold Lister.filter_projects.
  exact (filter_loop_bad_include _ _ projects [] [] Ht Hbad He).
Qed.
End MoreFilterFacts.

(** Three projects and the exclude pattern [test|dev]. *)
Lemma filter_projects_loses_nothing_witness :
  let projects := [Lister.Project "prod-api" "Prod API" "1";
                   Lister.Project "test-api" "Test API" "2";
                   Lister.Project "dev-db" "Dev DB" "3"] in
  let kept := [Lister.Project "prod-api" "Prod API" "1"] in
  let excluded := [Lister.Project "test-api" "Test API" "2";
                   Lister.Project "dev-db" "Dev DB" "3"] in
  Lister.filter_projects Lister.literal_search projects None
                         (Some "test|dev")
  = Returned (kept, excluded)
  /\ length kept + length excluded = length projects.
Proof.
  cbv zeta. split; [vm_compute; reflexivity|].
  assert (Spec.compiles Lister.literal_search None) as Hi.
  { intros H. discriminate. }
  assert (Spec.compiles Lister.literal_search (Some "test|dev")) as He.
  { intros _ s. unfold Lister.literal_search. simpl. eauto. }
  destruct (filter_projects_loses_nothing Lister.literal_search
              [Lister.Project "prod-api" "Prod API" "1";
               Lister.Project "test-api" "Test API" "2";
               Lister.Project "dev-db" "Dev DB" "3"]
              [Lister.Project "prod-api" "Prod API" "1"]
              [Lister.Project "test-api" "Test API" "2";
               Lister.Project "dev-db" "Dev DB" "3"]
              None (Some "test|dev") Hi He)
    as (_ & Hlen & _); [vm_compute; reflexivity|exact Hlen].
Defined.

(** The include pattern [(] does not compile; the exclude pattern [api]
    takes both projects, so the filter returns. *)
Lemma bad_include_pattern_raises_at_first_passing_project_witness :
  let projects := [Lister.Project "prod-api" "Prod API" "1";
                   Lister.Project "test-api" "Test API" "2"] in
  Py.truthy (Some "(") = true
  /\ (forall s, exists ex, Lister.literal_search "(" s = Raised ex)
  /\ Spec.compiles Lister.literal_search (Some "api")
  /\ Lister.filter_projects Lister.literal_search projects (Some "(")
                            (Some "api")
     = Returned ([], projects).
Proof.
  cbv zeta.
  assert (forall s, exists ex, Lister.literal_search "(" s = Raised ex)
    as Hbad.
  { intros s. unfold Lister.literal_search. simpl. eauto. }
  assert (Spec.compiles Lister.literal_search (Some "api")) as He.
  { intros _ s. unfold Lister.literal_search. simpl. eauto. }
  split; [reflexivity|]. split; [exact Hbad|]. split; [exact He|].
  exact (bad_include_pattern_raises_at_first_passing_project
           Lister.literal_search
           [Lister.Project "prod-api" "Prod API" "1";
            Lister.Project "test-api" "Test API" "2"]
           (Some "(") (Some "api") eq_refl Hbad He).
Defined.

(** ** The lister as a program *)

Lemma lister_append_active_records (page : list Listing.project_resource)
    (acc : list Lister.project) :
  Lister.append_active page acc
  = acc ++ map ListerMain.to_project (List.filter Spec.is_active page).
Proof.
  revert acc. induction page as [|p rest IH]; intros acc; simpl.
  - symmetry. apply app_nil_r.
  - unfold Spec.is_active at 1.
    destruct (String.eqb (Listing.lifecycleState p) "ACTIVE"); rewrite IH.
    + simpl. rewrite <- app_assoc. reflexivity.
    + reflexivity.
Qed.

Lemma lister_fetch_pages_records (l : Listing.listing)
    (acc : list Lister.project) :
  Spec.fails l = false ->
  Lister.fetch_pages l acc
  = Returned (acc ++ map ListerMain.to_project
                         (List.filter Spec.is_active (Spec.resources l))).
Proof.
  revert acc. induction l as [page|page tok next IH|ex]; intros acc; simpl.
  - intros _. rewrite lister_append_active_records. reflexivity.
  - intros Hf. rewrite (IH _ Hf), lister_append_active_records.
    rewrite List.filter_app, map_app, <- app_assoc. reflexivity.
  - discriminate.
Qed.

(** The records the lister's enumerator returns from a listing whose
    requests are all answered. *)
Lemma lister_enumerated (l : Listing.listing) :
  Spec.fails l = false ->
  exists ps,
    Lister.get_all_projects true l = Continue ps
    /\ ps ≡ₚ map ListerMain.to_project
                 (List.filter Spec.is_active (Spec.resources l))
    /\ length ps = length (Spec.active_ids l).
Proof.
  intros Hf. unfold Lister.get_all_projects.
  rewrite (lister_fetch_pages_records l [] Hf). simpl.
  eexists. split; [reflexivity|]. split; [apply sorted_perm|].
  rewrite (Permutation_length (sorted_perm Lister.id _)).
  unfold Spec.active_ids. rewrite !length_map. reflexivity.
Qed.

(** X10.  When no listing request fails, the lister's enumerator returns
    one record for each active project of the listing and none for the
    others; a record carries the identifier, the name and the number of
    the listing, with [UNNAMED] for a missing name and [N/A] for a missing
    number.  Without a credential it ends the run with status 1. *)
Theorem lister_enumerator_records (l : Listing.listing) :
  Spec.fails l = false ->
  (exists ps,
      Lister.get_all_projects true l = Continue ps
      /\ ps ≡ₚ map ListerMain.to_project
                   (List.filter Spec.is_active (Spec.resources l))
      /\ length ps = length (Spec.active_ids l))
  /\ Lister.get_all_projects false l = Exit 1%Z.
Proof.
  intros Hf. split; [exact (lister_enumerated l Hf)|reflexivity].
Qed.

(** Two pages: an active project without a name, a deleted one, and an
    active one with all its fields. *)
Lemma lister_enumerator_records_witness :
  let l := Listing.MorePages
             (Some [Listing.ProjectResource "web" "ACTIVE" None (Some "12");
                    Listing.ProjectResource "old" "DELETE_REQUESTED"
                                            (Some "Old") (Some "7")])
             "t1"
             (Listing.LastPage
                (Some [Listing.ProjectResource "api" "ACTIVE" (Some "Api")
                                               None])) in
  Spec.fails l = false
  /\ Lister.get_all_projects true l
     = Continue [Lister.Project "api" "Api" "N/A";
                 Lister.Project "web" "UNNAMED" "12"].
Proof.
  cbv zeta. split; [reflexivity|].
  destruct (lister_enumerator_records
              (Listing.MorePages
                 (Some [Listing.ProjectResource "web" "ACTIVE" None
                                                (Some "12");
                        Listing.ProjectResource "old" "DELETE_REQUESTED"
                                                (Some "Old") (Some "7")])
                 "t1"
                 (Listing.LastPage
                    (Some [Listing.ProjectResource "api" "ACTIVE"
                                                   (Some "Api") None])))
              eq_refl) as [(ps & Hps & _) _].
  rewrite Hps. vm_compute in Hps. injection Hps as <-. reflexivity.
Defined.

Section ListerMainFacts.
Import ListerMain.
Variable re_search : string -> string -> outcome bool.

Lemma replace_without_occurrence (old new s : string) :
  Lister.occurs_in old s = false -> replace s old new = s.
Proof.
  unfold replace. induction s as [|c r IH]; [reflexivity|].
  intros H. cbn [Lister.occurs_in] in H.
  apply orb_false_iff in H as [Hp Hr]. cbn [replace_from]. rewrite Hp.
  f_equal. apply IH, Hr.
Qed.

Lemma length_append (s t : string) :
  String.length (s +:+ t) = String.length s + String.length t.
Proof.
  induction s as [|c s IH]; [reflexivity|].
  rewrite append_cons. simpl. rewrite IH. reflexivity.
Qed.

Lemma replace_from_length (old new s : string) (skip : nat) :
  1 <= String.length old <= String.length new ->
  String.length s
  <= String.length (replace_from old new s skip)
     + Nat.min skip (String.length s).
Proof.
  intros Hlen. revert skip.
  induction s as [|c r IH]; intros skip; simpl; [lia|].
  destruct skip as [|k].
  - destruct (Lister.is_prefix old (String c r)).
    + rewrite length_append.
      specialize (IH (String.length old - 1)). lia.
    + simpl. specialize (IH 0). lia.
  - specialize (IH k). lia.
Qed.

Lemma is_prefix_nonempty (old s : string) :
  Lister.is_prefix old s = true -> old <> EmptyString ->
  1 <= String.length old <= String.length s.
Proof.
  intros H Hne. split; [destruct old; [contradiction|simpl; lia]|].
  clear Hne. revert s H.
  induction old as [|a old IH]; intros s H; [simpl; lia|].
  destruct s as [|b s]; [discriminate|]. simpl in H.
  apply andb_true_iff in H as [_ H]. apply IH in H. simpl. lia.
Qed.

Lemma replace_with_occurrence (old new s : string) :
  String.length old < String.length new -> old <> EmptyString ->
  Lister.occurs_in old s = true ->
  String.length s < String.length (replace s old new).
Proof.
  intros Hlen Hne. unfold replace.
  induction s as [|c r IH]; intros H.
  - destruct old; [contradiction|discriminate].
  - cbn [Lister.occurs_in] in H. cbn [replace_from].
    destruct (Lister.is_prefix old (String c r)) eqn:Hp.
    + rewrite length_append.
      pose proof (is_prefix_nonempty _ _ Hp Hne) as Hb.
      pose proof (replace_from_length old new r (String.length old - 1))
        as Hl.
      simpl in *. lia.
    + simpl in H. simpl. apply IH in H. lia.
Qed.

(** The run that reaches the end: both files are written. *)
Lemma main_written (a : args) (env : environment) (fs : gmap string string)
    (all kept excluded : list Lister.project) :
  Lister.get_all_projects (credentials env) (project_listing env)
  = Continue all ->
  Lister.filter_projects re_search all (include_pattern a)
                         (exclude_pattern a) = Returned (kept, excluded) ->
  (show_stats a = true -> all <> []) ->
  preview_only a = false ->
  can_write env (output_file a) = true ->
  can_write env (replace (output_file a) ".txt" "-detailed.txt") = true ->
  main re_search a env fs
  = (0%Z,
     <[replace (output_file a) ".txt" "-detailed.txt"
       := detailed_text kept]>
       (<[output_file a := ids_text kept]> fs)).
Proof.
  intros Hall Hfilter Hstats Hpreview Hw1 Hw2. unfold main.
  rewrite Hall, Hfilter, Hpreview, Hw1, Hw2.
  destruct (show_stats a); [|reflexivity].
  destruct all; [exfalso; apply Hstats; reflexivity|reflexivity].
Qed.

(** X11.  The lister writes no file but its output file and the detailed
    file named after it: every other file is after the run what it was
    before, whatever happens; in preview mode no file at all is written;
    and the exit status is 0 or 1. *)
Theorem lister_writes_only_its_two_files
    (a : args) (env : environment) (fs : gmap string string) :
  let out := main re_search a env fs in
  (forall f,
      f <> output_file a ->
      f <> replace (output_file a) ".txt" "-detailed.txt" ->
      snd out !! f = fs !! f)
  /\ (preview_only a = true -> snd out = fs)
  /\ (fst out = 0%Z \/ fst out = 1%Z).
Proof.
  cbv zeta. unfold main. split; [|split].
  - intros f H1 H2. repeat case_match; simpl;
      rewrite ?lookup_insert_ne by congruence; reflexivity.
  - intros Hp. rewrite Hp. repeat case_match; reflexivity.
  - unfold Lister.get_all_projects.
    repeat case_match; simplify_eq; simpl; auto.
Qed.

(** X12.  With [--stats] and a listing that has no active project, the
    run ends with status 1 and writes nothing, also in preview mode: the
    statistics divide by the number of projects found, and they come
    before the preview and before the files. *)
Theorem statistics_of_no_project_end_the_run
    (a : args) (env : environment) (fs : gmap string string) :
  credentials env = true ->
  Spec.fails (project_listing env) = false ->
  Spec.active_ids (project_listing env) = [] ->
  show_stats a = true ->
  main re_search a env fs = (1%Z, fs).
Proof.
  intros Hc Hf Hnone Hs. unfold main.
  destruct (lister_enumerated (project_listing env) Hf)
    as (ps & Hps & _ & Hlen).
  rewrite Hc, Hps. rewrite Hnone in Hlen.
  destruct ps; [|discriminate]. simpl. rewrite Hs. reflexivity.
Qed.

Lemma replace_changes_a_txt_name (name : string) :
  Lister.occurs_in ".txt" name = true ->
  replace name ".txt" "-detailed.txt" <> name.
Proof.
  intros Ho Heq.
  pose proof (replace_with_occurrence ".txt" "-detailed.txt" name) as Hlen.
  rewrite Heq in Hlen. simpl in Hlen.
  assert (String.length name < String.length name);
    [apply Hlen; [lia|discriminate|exact Ho]|lia].
Qed.

Lemma output_file_holds_the_identifiers
    (a : args) (env : environment) (fs : gmap string string)
    (all kept excluded : list Lister.project) :
  Lister.get_all_projects (credentials env) (project_listing env)
  = Continue all ->
  Lister.filter_projects re_search all (include_pattern a)
                         (exclude_pattern a) = Returned (kept, excluded) ->
  (show_stats a = true -> all <> []) ->
  preview_only a = false ->
  can_write env (output_file a) = true ->
  can_write env (replace (output_file a) ".txt" "-detailed.txt") = true ->
  Lister.occurs_in ".txt" (output_file a) = true ->
  snd (main re_search a env fs) !! output_file a = Some (ids_text kept).
Proof.
  intros Hall Hfilter Hstats Hpreview Hw1 Hw2 Ho.
  rewrite (main_written a env fs all kept excluded Hall Hfilter Hstats
             Hpreview Hw1 Hw2). simpl.
  rewrite lookup_insert_ne by (apply replace_changes_a_txt_name, Ho).
  apply lookup_insert_eq.
Qed.

(** X13.  When the run reaches the end, the detailed file holds the
    header and one row for each kept project.  When the name of the output
    file contains [.txt], the detailed file is another file and the output
    file holds the kept identifiers, one per line; when it does not, the
    detailed file is the output file itself, and the rows take the place
    of the identifier list. *)
Theorem detailed_file_replaces_the_list_without_txt
    (a : args) (env : environment) (fs : gmap string string)
    (all kept excluded : list Lister.project) :
  Lister.get_all_projects (credentials env) (project_listing env)
  = Continue all ->
  Lister.filter_projects re_search all (include_pattern a)
                         (exclude_pattern a) = Returned (kept, excluded) ->
  (show_stats a = true -> all <> []) ->
  preview_only a = false ->
  can_write env (output_file a) = true ->
  can_write env (replace (output_file a) ".txt" "-detailed.txt") = true ->
  let out := main re_search a env fs in
  let detailed := replace (output_file a) ".txt" "-detailed.txt" in
  fst out = 0%Z
  /\ snd out !! detailed = Some (detailed_text kept)
  /\ if Lister.occurs_in ".txt" (output_file a)
     then detailed <> output_file a
          /\ snd out !! output_file a = Some (ids_text kept)
     else detailed = output_file a
          /\ snd out !! output_file a = Some (detailed_text kept).
Proof.
  intros Hall Hfilter Hstats Hpreview Hw1 Hw2. cbv zeta.
  rewrite (main_written a env fs all kept excluded Hall Hfilter Hstats
             Hpreview Hw1 Hw2). simpl.
  split; [reflexivity|]. split; [apply lookup_insert_eq|].
  destruct (Lister.occurs_in ".txt" (output_file a)) eqn:Ho.
  - pose proof (replace_changes_a_txt_name _ Ho) as Hne.
    split; [exact Hne|].
    rewrite lookup_insert_ne by exact Hne. apply lookup_insert_eq.
  - rewrite (replace_without_occurrence _ _ _ Ho).
    split; [reflexivity|apply lookup_insert_eq].
Qed.
End ListerMainFacts.

(** The output file is named [projects], without [.txt]. *)
Lemma detailed_file_replaces_the_list_without_txt_witness :
  let a := ListerMain.Args "projects" None None false false in
  let env := ListerMain.Environment true
               (Listing.LastPage
                  (Some [Listing.ProjectResource "api" "ACTIVE" (Some "Api")
                                                 (Some "7")]))
               (fun _ => true) in
  let out := ListerMain.main Lister.literal_search a env ∅ in
  Lister.get_all_projects (ListerMain.credentials env)
                          (ListerMain.project_listing env)
  = Continue [Lister.Project "api" "Api" "7"]
  /\ fst out = 0%Z
  /\ snd out !! "projects"
     = Some (ListerMain.detailed_text [Lister.Project "api" "Api" "7"]).
Proof.
  cbv zeta. split; [reflexivity|].
  destruct (detailed_file_replaces_the_list_without_txt
              Lister.literal_search
              (ListerMain.Args "projects" None None false false)
              (ListerMain.Environment true
                 (Listing.LastPage
                    (Some [Listing.ProjectResource "api" "ACTIVE"
                                                   (Some "Api") (Some "7")]))
                 (fun _ => true))
              ∅
              [Lister.Project "api" "Api" "7"]
              [Lister.Project "api" "Api" "7"] [])
    as (H0 & _ & H); try reflexivity.
  - discriminate.
  - split; [exact H0|]. simpl in H. destruct H as [_ H]. exact H.
Defined.

(** A listing without an active project, and [--stats]. *)
Lemma statistics_of_no_project_end_the_run_witness :
  let a := ListerMain.Args "projects.txt" None None true false in
  let env := ListerMain.Environment true
               (Listing.LastPage
                  (Some [Listing.ProjectResource "old" "DELETE_REQUESTED"
                                                 None None]))
               (fun _ => true) in
  ListerMain.credentials env = true
  /\ Spec.active_ids (ListerMain.project_listing env) = []
  /\ ListerMain.main Lister.literal_search a env ∅ = (1%Z, ∅).
Proof.
  cbv zeta. split; [reflexivity|]. split; [reflexivity|].
  apply (statistics_of_no_project_end_the_run Lister.literal_search
           (ListerMain.Args "projects.txt" None None true false)
           (ListerMain.Environment true
              (Listing.LastPage
                 (Some [Listing.ProjectResource "old" "DELETE_REQUESTED"
                                                None None]))
              (fun _ => true))
           ∅); reflexivity.
Defined.

(** ** From the lister's output file to the granter's project list *)

Lemma rstrip_app_space (s t : string) :
  Spec.all_space t = true -> Py.rstrip (s +:+ t) = Py.rstrip s.
Proof.
  intros Ht. induction s as [|c s IH].
  - rewrite append_empty. apply rstrip_empty, Ht.
  - rewrite append_cons. simpl. rewrite IH. reflexivity.
Qed.

Lemma rstrip_without_last_space (s : string) :
  Spec.last_space s = false -> Py.rstrip s = s.
Proof.
  induction s as [|c r IH]; [reflexivity|]. simpl.
  destruct r as [|c' r'].
  - simpl. intros ->. reflexivity.
  - intros H. rewrite (IH H). reflexivity.
Qed.

Lemma strip_clean_line (s : string) :
  ListerMain.clean s = true -> Py.strip (s +:+ ListerMain.newline) = s.
Proof.
  unfold ListerMain.clean. intros H.
  apply andb_true_iff in H as [H Hlast].
  apply andb_true_iff in H as [H Hhead].
  apply andb_true_iff in H as [Hne _].
  apply negb_true_iff in Hlast, Hhead. unfold Py.strip.
  destruct s as [|c r]; [discriminate|]. simpl in Hhead.
  rewrite append_cons. simpl Py.lstrip. rewrite Hhead.
  rewrite <- append_cons, rstrip_app_space by reflexivity.
  apply rstrip_without_last_space, Hlast.
Qed.

Lemma universal_newlines_line (s t : string) :
  ListerMain.one_line s = true ->
  Granter.universal_newlines (s +:+ ListerMain.newline +:+ t)
  = (s +:+ ListerMain.newline +:+ Granter.universal_newlines t).
Proof.
  induction s as [|c r IH]; [reflexivity|]. simpl. intros H.
  apply andb_true_iff in H as [H Hr].
  apply andb_true_iff in H as [_ Hcr]. apply negb_true_iff in Hcr.
  rewrite !append_cons. simpl. rewrite Hcr, (IH Hr). reflexivity.
Qed.

Lemma split_lines_line (s t : string) :
  ListerMain.one_line s = true ->
  Granter.split_lines (s +:+ ListerMain.newline +:+ t)
  = (s +:+ ListerMain.newline) :: Granter.split_lines t.
Proof.
  induction s as [|c r IH]; [reflexivity|]. simpl. intros H.
  apply andb_true_iff in H as [H Hr].
  apply andb_true_iff in H as [Hlf _]. apply negb_true_iff in Hlf.
  rewrite !append_cons. simpl. rewrite Hlf, (IH Hr). reflexivity.
Qed.

Lemma clean_one_line (s : string) :
  ListerMain.clean s = true -> ListerMain.one_line s = true.
Proof.
  unfold ListerMain.clean. intros H.
  apply andb_true_iff in H as [H _]. apply andb_true_iff in H as [H _].
  apply andb_true_iff in H as [_ H]. exact H.
Qed.

Lemma file_lines_ids_text (projects : list Lister.project) :
  Forall (fun p => ListerMain.clean (Lister.id p) = true) projects ->
  Granter.file_lines (ListerMain.ids_text projects)
  = map (fun p => Lister.id p +:+ ListerMain.newline) projects.
Proof.
  unfold Granter.file_lines.
  induction 1 as [|p rest Hp Hrest IH]; [reflexivity|]. simpl.
  apply clean_one_line in Hp.
  rewrite (universal_newlines_line _ _ Hp), (split_lines_line _ _ Hp), IH.
  reflexivity.
Qed.

Lemma read_lines_ids (projects : list Lister.project) (acc : list string) :
  Forall (fun p => ListerMain.clean (Lister.id p) = true) projects ->
  Granter.read_lines
    (map (fun p => Lister.id p +:+ ListerMain.newline) projects) acc
  = acc ++ map Lister.id projects.
Proof.
  intros H. revert acc.
  induction H as [|p rest Hp Hrest IH]; intros acc; simpl.
  - symmetry. apply app_nil_r.
  - rewrite (strip_clean_line _ Hp).
    assert (Py.nonempty (Lister.id p) = true) as ->.
    { unfold ListerMain.clean in Hp. destruct (Py.nonempty (Lister.id p));
        [reflexivity|discriminate]. }
    rewrite IH, <- app_assoc. reflexivity.
Qed.

Section RoundTrip.
Variable re_search : string -> string -> outcome bool.

(** X14.  The granter reads back what the lister wrote: when a run of the
    lister reaches the end, its output file has a name that contains
    [.txt], and the kept identifiers are not empty, lie on one line and
    have no white space at either end, then [get_projects_from_file] on
    the output file returns exactly the kept identifiers, in the lister's
    order. *)
Theorem granter_reads_the_listers_output
    (a : ListerMain.args) (env : ListerMain.environment)
    (fs : gmap string string) (all kept excluded : list Lister.project) :
  Lister.get_all_projects (ListerMain.credentials env)
                          (ListerMain.project_listing env) = Continue all ->
  Lister.filter_projects re_search all (ListerMain.include_pattern a)
                         (ListerMain.exclude_pattern a)
  = Returned (kept, excluded) ->
  (ListerMain.show_stats a = true -> all <> []) ->
  ListerMain.preview_only a = false ->
  ListerMain.can_write env (ListerMain.output_file a) = true ->
  ListerMain.can_write env
    (ListerMain.replace (ListerMain.output_file a) ".txt" "-detailed.txt")
  = true ->
  Lister.occurs_in ".txt" (ListerMain.output_file a) = true ->
  Forall (fun p => ListerMain.clean (Lister.id p) = true) kept ->
  Granter.get_projects_from_file
    (snd (ListerMain.main re_search a env fs)) (ListerMain.output_file a)
  = Continue (map Lister.id kept).
Proof.
  intros Hall Hfilter Hstats Hpreview Hw1 Hw2 Htxt Hclean.
  pose proof (output_file_holds_the_identifiers
                re_search a env fs all kept excluded Hall Hfilter Hstats
                Hpreview Hw1 Hw2 Htxt) as Hfile.
  unfold Granter.get_projects_from_file. rewrite Hfile.
  rewrite (file_lines_ids_text _ Hclean), (read_lines_ids _ [] Hclean).
  reflexivity.
Qed.
End RoundTrip.

(** One kept project and the output file [projects.txt]. *)
Lemma granter_reads_the_listers_output_witness :
  let a := ListerMain.Args "projects.txt" (Some "test") None false false in
  let env := ListerMain.Environment true
               (Listing.LastPage
                  (Some [Listing.ProjectResource "prod-api" "ACTIVE"
                                                 (Some "Api") (Some "7");
                         Listing.ProjectResource "test-api" "ACTIVE"
                                                 None None]))
               (fun _ => true) in
  Lister.occurs_in ".txt" (ListerMain.output_file a) = true
  /\ ListerMain.clean "prod-api" = true
  /\ Granter.get_projects_from_file
       (snd (ListerMain.main Lister.literal_search a env ∅))
       (ListerMain.output_file a)
     = Continue ["prod-api"].
Proof.
  cbv zeta. split; [reflexivity|]. split; [reflexivity|].
  apply (granter_reads_the_listers_output Lister.literal_search
           (ListerMain.Args "projects.txt" (Some "test") None false false)
           (ListerMain.Environment true
              (Listing.LastPage
                 (Some [Listing.ProjectResource "prod-api" "ACTIVE"
                                                (Some "Api") (Some "7");
                        Listing.ProjectResource "test-api" "ACTIVE"
                                                None None]))
              (fun _ => true))
           ∅
           [Lister.Project "prod-api" "Api" "7";
            Lister.Project "test-api" "UNNAMED" "N/A"]
           [Lister.Project "prod-api" "Api" "7"]
           [Lister.Project "test-api" "UNNAMED" "N/A"]);
    try reflexivity.
  - discriminate.
  - repeat constructor.
Defined.

(** ** Tasks of different projects do not interfere *)

Section IsolationFacts.
Import Granter Isolation.

Ltac footprint_step :=
  cbn [bind];
  lazymatch goal with
  | |- footprint _ (Ret _) => apply fp_ret
  | |- footprint _ (GetIamPolicy _ _) => apply fp_get; intros [?|?]
  | |- footprint _ (SetIamPolicy _ _ _) => apply fp_set; intros [?|?]
  | |- footprint _ (Incr _ _) => apply fp_incr
  | |- footprint _ (LogError _ _) => apply fp_log
  | |- footprint _ _ => case_match
  end.

(** The grant operation sends its requests to its own project only. *)
Lemma grant_footprint (a : args) (pid member role_ : string) :
  footprint pid (grant_iam_permission a pid member role_).
Proof.
  unfold grant_iam_permission, check_permission, try_except, bind_try,
    never_raises, getIamPolicy, setIamPolicy, increment, evaluate, return_.
  repeat footprint_step.
Qed.

Lemma grant_project_id (a : args) (pid member role_ : string)
    (fs : list fault) (st : state) :
  project_id (fst (run (grant_iam_permission a pid member role_) fs st))
  = pid.
Proof.
  unfold grant_iam_permission, check_permission, try_except, bind_try,
    never_raises, getIamPolicy, setIamPolicy, increment, evaluate, return_.
  cbn [bind run]. repeat (case_match; cbn [bind run fst snd]); reflexivity.
Qed.

(** One effect of a task leaves the policies of the other projects as
    they are, and adds at most a write to its own project. *)
Lemma step_footprint {A : Type} (pid : string) (p : prog A) (f : fault)
    (st : state) :
  footprint pid p ->
  footprint pid (fst (step f p st))
  /\ (forall q, q <> pid ->
        policies (snd (step f p st)) !! q = policies st !! q)
  /\ (set_requests (snd (step f p st)) = set_requests st
      \/ exists body,
          set_requests (snd (step f p st))
          = set_requests st ++ [(pid, body)]).
Proof.
  intros H. destruct H as [r | k Hk | body k Hk | c k Hk | msg k Hk]; simpl.
  - split; [constructor|]. auto.
  - split; [apply Hk|]. auto.
  - destruct (api_set f pid body st) as [o st'] eqn:E. simpl.
    split; [apply Hk|].
    apply api_set_effect in E as (Hs & _ & _ & Hp).
    split; [|right; exists body; exact Hs].
    intros q Hq. destruct o; rewrite Hp; [|reflexivity].
    apply lookup_insert_ne. congruence.
  - split; [exact Hk|].
    split; [intros q _|left]; destruct c; reflexivity.
  - split; [exact Hk|]. auto.
Qed.

(** What a task gives for its project depends on the state only through
    the policy stored for that project. *)
Lemma outcome_frame {A : Type} (pid : string) (p : prog A) :
  footprint pid p ->
  forall fs st1 st2,
    policies st1 !! pid = policies st2 !! pid ->
    outcome_of p fs st1 pid = outcome_of p fs st2 pid.
Proof.
  unfold outcome_of.
  induction 1 as [r | k Hk IH | body k Hk IH | c k Hk IH | msg k Hk IH];
    intros fs st1 st2 Heq; simpl.
  - rewrite Heq. reflexivity.
  - assert (api_get (next_fault fs) pid st1 = api_get (next_fault fs) pid st2)
      as ->.
    { unfold api_get. rewrite Heq. reflexivity. }
    apply IH, Heq.
  - destruct (api_set (next_fault fs) pid body st1) as [o1 s1] eqn:E1.
    destruct (api_set (next_fault fs) pid body st2) as [o2 s2] eqn:E2.
    assert (o1 = o2 /\ policies s1 !! pid = policies s2 !! pid) as [-> Hs].
    { unfold api_set in E1, E2. rewrite Heq in E1.
      destruct (next_fault fs).
      - injection E1 as <- <-. injection E2 as <- <-. simpl. auto.
      - destruct (policies st2 !! pid) eqn:E;
          injection E1 as <- <-; injection E2 as <- <-; simpl.
        + rewrite !lookup_insert_eq. auto.
        + rewrite Heq. auto. }
    apply IH, Hs.
  - apply IH. destruct c; exact Heq.
  - apply IH. exact Heq.
Qed.

(** A step of a task is the first step of its run. *)
Lemma run_after_step {A : Type} (p : prog A) (f : fault) (st : state)
    (fs' : list fault) :
  exists fs,
    (fs = f :: fs' \/ fs = fs')
    /\ run p fs st = run (fst (step f p st)) fs' (snd (step f p st)).
Proof.
  destruct p as [r | res k | res body k | c k | msg k]; simpl.
  - exists fs'. auto.
  - exists (f :: fs'). auto.
  - exists (f :: fs'). split; [auto|]. simpl.
    destruct (api_set f res body st); reflexivity.
  - exists fs'. auto.
  - exists fs'. auto.
Qed.

Lemma run_without_faults {A : Type} (p : prog A) :
  forall fs st, Forall (fun f => f = None) fs -> run p fs st = run p [] st.
Proof.
  induction p as [r | res k IH | res body k IH | c k IH | msg k IH];
    intros fs st Hfs; cbn [run].
  - reflexivity.
  - destruct Hfs as [|f fs' -> Hfs']; cbn [next_fault tail]; [reflexivity|].
    rewrite (IH _ fs' st Hfs'). reflexivity.
  - destruct Hfs as [|f fs' -> Hfs']; cbn [next_fault tail]; [reflexivity|].
    destruct (api_set None res body st) as [o st'].
    apply IH, Hfs'.
  - apply IH, Hfs.
  - apply IH, Hfs.
Qed.

Section PoolInduction.
Variables (a : args) (member role_ : string).
Variable allowed : fault -> Prop.
Variable I : pool -> state -> Prop.
Hypothesis I_start :
  forall pl st, I pl st -> I (start_workers a member role_ pl) st.
Hypothesis I_pick :
  forall f pl st i pid p,
    allowed f -> I pl st -> running pl !! i = Some (pid, p) ->
    I (fst (picked f pl st i pid p)) (snd (picked f pl st i pid p)).

Lemma pool_step_keeps (c : nat * fault) (pl : pool) (st : state) :
  allowed (snd c) -> I pl st ->
  I (fst (pool_step a member role_ c pl st))
    (snd (pool_step a member role_ c pl st)).
Proof.
  intros Hc H. apply I_start in H. unfold pool_step.
  generalize dependent (start_workers a member role_ pl). intros pl1 H.
  destruct (running pl1 !! (fst c mod length (running pl1)))
    as [[pid p]|] eqn:Hi.
  - exact (I_pick _ _ _ _ _ _ Hc H Hi).
  - exact H.
Qed.

(** A property of the pool and the state that starting workers and every
    effect of a running task keep holds all along a run. *)
Lemma run_pool_keeps (fuel : nat) (sched : nat -> nat * fault) (t : nat)
    (pl : pool) (st : state) :
  (forall n, allowed (snd (sched n))) -> I pl st ->
  I (fst (run_pool a member role_ fuel sched t pl st))
    (snd (run_pool a member role_ fuel sched t pl st)).
Proof.
  intros Hs. revert t pl st.
  induction fuel as [|fuel IH]; intros t pl st H; simpl; [exact H|].
  pose proof (pool_step_keeps (sched t) pl st (Hs t) H) as H'.
  destruct (pool_step a member role_ (sched t) pl st) as [pl' st'].
  apply IH, H'.
Qed.
End PoolInduction.

Section Linear.
Variables (a : args) (member role_ : string).
Variable allowed : fault -> Prop.
Variable st0 : state.

Lemma new_tasks_linear (st : state) (l : list string) :
  Forall (fun pid => policies st !! pid = policies st0 !! pid) l ->
  Forall (fun t => footprint (fst t) (snd t)
                   /\ continues a member role_ allowed st0
                                (fst t) (snd t) st)
         (map (fun pid => (pid, grant_iam_permission a pid member role_)) l).
Proof.
  induction 1 as [|pid l Hpid _ IH]; simpl; constructor; [|exact IH].
  simpl. split; [apply grant_footprint|].
  intros fs' Hfs'. exists fs'. split; [exact Hfs'|].
  apply outcome_frame; [apply grant_footprint|exact Hpid].
Qed.

Lemma linear_start (pl : pool) (st : state) :
  linear a member role_ allowed st0 pl st ->
  linear a member role_ allowed st0 (start_workers a member role_ pl) st.
Proof.
  intros [Hrun Hdone Hpend Hnd].
  set (free := Z.to_nat (max_workers a) - length (running pl)).
  split; simpl; fold free.
  - apply Forall_app. split; [exact Hrun|].
    apply new_tasks_linear, Forall_take, Hpend.
  - exact Hdone.
  - apply Forall_drop, Hpend.
  - rewrite map_app, map_map. simpl. rewrite map_id, <- app_assoc.
    rewrite take_drop. exact Hnd.
Qed.

(** The stored policy of another project does not matter to a task. *)
Lemma continues_frame (pid : string) (p : prog task_result)
    (st st' : state) :
  footprint pid p -> policies st' !! pid = policies st !! pid ->
  continues a member role_ allowed st0 pid p st ->
  continues a member role_ allowed st0 pid p st'.
Proof.
  intros Hfp Heq Hc fs' Hfs'. destruct (Hc fs' Hfs') as (fs & Hfs & H).
  exists fs. split; [exact Hfs|]. rewrite <- H.
  apply outcome_frame; assumption.
Qed.

Lemma continues_step (pid : string) (p : prog task_result) (f : fault)
    (st : state) :
  allowed f -> continues a member role_ allowed st0 pid p st ->
  continues a member role_ allowed st0 pid
            (fst (step f p st)) (snd (step f p st)).
Proof.
  intros Hf Hc fs' Hfs'.
  destruct (run_after_step p f st fs') as (fs1 & Hfs1 & Hrun).
  destruct (Hc fs1) as (fs & Hfs & H).
  { destruct Hfs1 as [-> | ->]; [constructor|]; assumption. }
  exists fs. split; [exact Hfs|]. rewrite <- H.
  unfold outcome_of. rewrite Hrun. reflexivity.
Qed.

(** A task that has returned gives the result and leaves the policy of
    the grant operation run alone. *)
Lemma continues_returned (pid : string) (r : task_result) (st : state) :
  continues a member role_ allowed st0 pid (Ret r) st ->
  project_id r = pid /\ settled a member role_ allowed st0 r st.
Proof.
  intros Hc. destruct (Hc [] (Forall_nil_2 _)) as (fs & Hfs & H).
  unfold outcome_of, alone, outcome_of in H. simpl in H.
  assert (project_id r = pid) as Hpid.
  { injection H as -> _. apply grant_project_id. }
  split; [exact Hpid|]. exists fs. split; [exact Hfs|].
  rewrite Hpid. exact H.
Qed.

Lemma linear_pick (f : fault) (pl : pool) (st : state) (i : nat)
    (pid : string) (p : prog task_result) :
  allowed f -> linear a member role_ allowed st0 pl st ->
  running pl !! i = Some (pid, p) ->
  linear a member role_ allowed st0
         (fst (picked f pl st i pid p)) (snd (picked f pl st i pid p)).
Proof.
  intros Hf [Hrun Hdone Hpend Hnd] Hi.
  assert (i < length (running pl)) as Hlt
    by (eapply lookup_lt_Some; eauto).
  pose proof (take_drop_middle _ _ _ Hi) as Hsplit.
  assert (map fst (running pl)
          = map fst (take i (running pl)) ++ pid
            :: map fst (drop (S i) (running pl))) as Hkeys.
  { rewrite <- Hsplit at 1. rewrite map_app. reflexivity. }
  rewrite <- Hsplit in Hrun.
  apply Forall_app in Hrun as [Hr1 Hr2].
  apply Forall_cons in Hr2 as [[Hfp Hcont] Hr2]. simpl in Hfp, Hcont.
  rewrite Hkeys in Hnd.
  assert (map project_id (completed pl)
          ++ (map fst (take i (running pl)) ++ pid
              :: map fst (drop (S i) (running pl))) ++ pending pl
          ≡ₚ pid :: map project_id (completed pl)
             ++ map fst (take i (running pl))
             ++ map fst (drop (S i) (running pl)) ++ pending pl) as Hperm.
  { rewrite <- app_assoc. simpl. rewrite app_assoc.
    rewrite <- Permutation_middle. rewrite <- app_assoc. reflexivity. }
  pose proof Hnd as Hnd'. rewrite Hperm in Hnd'.
  apply NoDup_cons in Hnd' as [Hnotin Hrest].
  rewrite !elem_of_app in Hnotin.
  destruct (step_footprint pid p f st Hfp) as (Hfp' & Hother & _).
  pose proof (continues_step pid p f st Hf Hcont) as Hcont'.
  unfold picked. destruct (step f p st) as [p' st'] eqn:Hstep.
  simpl in Hfp', Hother, Hcont'.
  assert (Forall (fun t => footprint (fst t) (snd t)
                           /\ continues a member role_ allowed st0
                                        (fst t) (snd t) st')
                 (take i (running pl))) as Hr1'.
  { apply Forall_forall. intros t Ht.
    rewrite Forall_forall in Hr1. destruct (Hr1 t Ht) as [Ht1 Ht2].
    split; [exact Ht1|]. apply (continues_frame _ _ st); auto.
    apply Hother. intros Heq. apply Hnotin. right. left. rewrite <- Heq.
    apply (list_elem_of_fmap_2 fst), Ht. }
  assert (Forall (fun t => footprint (fst t) (snd t)
                           /\ continues a member role_ allowed st0
                                        (fst t) (snd t) st')
                 (drop (S i) (running pl))) as Hr2'.
  { apply Forall_forall. intros t Ht.
    rewrite Forall_forall in Hr2. destruct (Hr2 t Ht) as [Ht1 Ht2].
    split; [exact Ht1|]. apply (continues_frame _ _ st); auto.
    apply Hother. intros Heq. apply Hnotin. right. right. left.
    rewrite <- Heq. apply (list_elem_of_fmap_2 fst), Ht. }
  assert (Forall (fun r => settled a member role_ allowed st0 r st')
                 (completed pl)) as Hdone'.
  { apply Forall_forall. intros r Hr.
    rewrite Forall_forall in Hdone. destruct (Hdone r Hr) as (fs & Hfs & H).
    exists fs. split; [exact Hfs|]. rewrite <- H. f_equal.
    apply Hother. intros Heq. apply Hnotin. left. rewrite <- Heq.
    apply (list_elem_of_fmap_2 project_id), Hr. }
  assert (Forall (fun q => policies st' !! q = policies st0 !! q)
                 (pending pl)) as Hpend'.
  { apply Forall_forall. intros q Hq.
    rewrite Forall_forall in Hpend. rewrite <- (Hpend q Hq).
    apply Hother. intros Heq. apply Hnotin. right. right. right.
    rewrite <- Heq. exact Hq. }
  assert (forall r, p' = Ret r ->
            linear a member role_ allowed st0
              (Pool (pending pl) (delete i (running pl))
                    (completed pl ++ [r])) st') as Hret.
  { intros r ->. apply continues_returned in Hcont' as [Hpid Hset].
    split; simpl.
    - rewrite delete_take_drop. apply Forall_app. auto.
    - apply Forall_app. split; [exact Hdone'|]. constructor; auto.
    - exact Hpend'.
    - rewrite delete_take_drop, !map_app. simpl. rewrite Hpid.
      rewrite <- !app_assoc. simpl.
      rewrite <- Permutation_middle. apply NoDup_cons.
      split; [|exact Hrest].
      rewrite !elem_of_app. exact Hnotin. }
  assert (linear a member role_ allowed st0
            (Pool (pending pl) (<[i := (pid, p')]> (running pl))
                  (completed pl)) st') as Hgo.
  { split; simpl.
    - rewrite insert_take_drop by exact Hlt. apply Forall_app.
      split; [exact Hr1'|]. constructor; auto.
    - exact Hdone'.
    - exact Hpend'.
    - rewrite insert_take_drop by exact Hlt. rewrite map_app. simpl.
      exact Hnd. }
  destruct p'; simpl; [apply Hret; reflexivity|exact Hgo..].
Qed.

Lemma linear_initial (projects : list string) :
  NoDup projects ->
  linear a member role_ allowed st0 (Pool projects [] []) st0.
Proof.
  intros Hnd. split; simpl; auto.
  apply Forall_forall. reflexivity.
Qed.

(** All along a run over distinct projects, every collected result and
    the policy stored for its project are those of the grant operation
    run alone. *)
Lemma process_linear (sched : nat -> nat * fault)
    (projects : list string) :
  NoDup projects -> (forall n, allowed (snd (sched n))) ->
  linear a member role_ allowed st0
    (fst (process_projects_parallel a member role_ sched projects st0))
    (snd (process_projects_parallel a member role_ sched projects st0)).
Proof.
  intros Hnd Hs. unfold process_projects_parallel.
  apply (run_pool_keeps a member role_ allowed); auto.
  - apply linear_start.
  - apply linear_pick.
  - apply linear_initial, Hnd.
Qed.

(** With at least one worker, each of the distinct projects has its
    result collected, and the result and the policy left for the project
    are those of the grant operation run alone under allowed faults. *)
Lemma pool_outcome_alone (sched : nat -> nat * fault)
    (projects : list string) (pid : string) :
  NoDup projects -> (1 <= max_workers a)%Z ->
  (forall n, allowed (snd (sched n))) -> pid ∈ projects ->
  let out := process_projects_parallel a member role_ sched projects st0 in
  exists fs r,
    Forall allowed fs /\ r ∈ completed (fst out)
    /\ (r, policies (snd out) !! pid) = alone a member role_ st0 pid fs.
Proof.
  intros Hnd workers Hs Hpid. cbv zeta.
  pose proof (process_linear sched projects Hnd Hs) as Hlin.
  unfold process_projects_parallel in *.
  pose proof (pool_inv_initial a projects st0) as Hinit.
  pose proof (run_pool_finished a member role_ projects st0
                (6 * length projects) sched 0 _ _ _ workers Hinit
                (le_n _)) as Hfin.
  destruct (run_pool_inv a member role_ projects st0
              (6 * length projects) sched 0 _ _ _ Hinit)
    as (b & [_ Hp _ _]).
  destruct (run_pool a member role_ (6 * length projects) sched 0
              (Pool projects [] []) st0) as [pl st'].
  simpl in *. destruct Hfin as [Hpend Hrun].
  rewrite Hpend, Hrun, !app_nil_r in Hp.
  rewrite <- Hp in Hpid.
  apply list_elem_of_fmap_1 in Hpid as (r & -> & Hr).
  destruct Hlin as [_ Hdone _ _]. rewrite Forall_forall in Hdone.
  destruct (Hdone r Hr) as (fs & Hfs & H).
  exists fs, r. auto.
Qed.
End Linear.

Section Framed.
Variables (a : args) (member role_ : string).
Variable st0 : state.
Variable projects : list string.

Lemma framed_start (pl : pool) (st : state) :
  framed st0 projects pl st ->
  framed st0 projects (start_workers a member role_ pl) st.
Proof.
  intros [Hrun Hpend Hstore Hreq].
  set (free := Z.to_nat (max_workers a) - length (running pl)).
  split; simpl; fold free; auto.
  - apply Forall_app. split; [exact Hrun|].
    assert (Forall (fun pid => pid ∈ projects) (take free (pending pl)))
      as Hnew by apply Forall_take, Hpend.
    generalize (take free (pending pl)) Hnew. intros l Hl.
    induction Hl as [|pid l Hpid _ IH]; simpl; constructor; [|exact IH].
    split; [exact Hpid|apply grant_footprint].
  - apply Forall_drop, Hpend.
Qed.

Lemma framed_pick (f : fault) (pl : pool) (st : state) (i : nat)
    (pid : string) (p : prog task_result) :
  framed st0 projects pl st -> running pl !! i = Some (pid, p) ->
  framed st0 projects
         (fst (picked f pl st i pid p)) (snd (picked f pl st i pid p)).
Proof.
  intros [Hrun Hpend Hstore (sent & Hsent & Hto)] Hi.
  assert (i < length (running pl)) as Hlt
    by (eapply lookup_lt_Some; eauto).
  pose proof (take_drop_middle _ _ _ Hi) as Hsplit.
  rewrite <- Hsplit in Hrun.
  apply Forall_app in Hrun as [Hr1 Hr2].
  apply Forall_cons in Hr2 as [[Hin Hfp] Hr2]. simpl in Hin, Hfp.
  destruct (step_footprint pid p f st Hfp) as (Hfp' & Hother & Hw).
  unfold picked. destruct (step f p st) as [p' st'] eqn:Hstep.
  simpl in Hfp', Hother, Hw.
  assert (forall q, q ∉ projects ->
            policies st' !! q = policies st0 !! q) as Hstore'.
  { intros q Hq. rewrite <- (Hstore q Hq). apply Hother.
    intros ->. exact (Hq Hin). }
  assert (exists sent',
            set_requests st' = set_requests st0 ++ sent'
            /\ Forall (fun w => fst w ∈ projects) sent') as Hreq'.
  { destruct Hw as [Hw|(body & Hw)]; rewrite Hw, Hsent.
    - exists sent. auto.
    - exists (sent ++ [(pid, body)]). rewrite app_assoc.
      split; [reflexivity|]. apply Forall_app. split; [exact Hto|].
      constructor; [exact Hin|constructor]. }
  assert (framed st0 projects
            (Pool (pending pl) (<[i := (pid, p')]> (running pl))
                  (completed pl)) st') as Hgo.
  { split; simpl; auto.
    rewrite insert_take_drop by exact Hlt. apply Forall_app.
    split; [exact Hr1|]. constructor; auto. }
  destruct p'; simpl; [|exact Hgo..].
  split; simpl; auto.
  rewrite delete_take_drop. apply Forall_app. auto.
Qed.

Lemma framed_initial : framed st0 projects (Pool projects [] []) st0.
Proof.
  split; simpl; auto.
  - apply Forall_forall. auto.
  - exists []. rewrite app_nil_r. auto.
Qed.
End Framed.

(** X15.  Over distinct projects and with at least one worker, however
    the scheduler interleaves the tasks and whichever requests fail, each
    project has its result collected, and that result and the policy the
    run leaves for the project are the ones the grant operation gives
    when it runs alone from the initial state under some faults of its
    own requests: the tasks do not disturb one another. *)
Theorem pool_tasks_do_not_disturb_one_another
    (a : args) (member role_ : string) (sched : nat -> nat * fault)
    (projects : list string) (st : state) (pid : string) :
  NoDup projects -> (1 <= max_workers a)%Z -> pid ∈ projects ->
  let out := process_projects_parallel a member role_ sched projects st in
  exists fs r,
    r ∈ completed (fst out)
    /\ r = fst (run (grant_iam_permission a pid member role_) fs st)
    /\ policies (snd out) !! pid
       = policies (snd (run (grant_iam_permission a pid member role_)
                            fs st)) !! pid.
Proof.
  intros Hnd workers Hpid. cbv zeta.
  destruct (pool_outcome_alone a member role_ (fun _ => True) st sched
              projects pid Hnd workers (fun _ => Logic.I) Hpid)
    as (fs & r & _ & Hr & H).
  exists fs, r. unfold alone, outcome_of in H.
  injection H as H1 H2. auto.
Qed.

(** Two projects, one of them without a policy, two workers, tasks taken
    in turn, every third request failing. *)
Lemma pool_tasks_do_not_disturb_one_another_witness :
  let a := Args false "projects.txt" None None "roles/viewer" 2 false false in
  let sched := fun t : nat =>
    (t, if Nat.eqb (t mod 3) 2 then Some "503" else None) in
  let st := State {[ "p1" := Iam.Policy None "e1" ]} 0 0 0 [] [] in
  let out := process_projects_parallel a "user:a@example.com" "roles/viewer"
               sched ["p1"; "p2"] st in
  NoDup ["p1"; "p2"] /\ (1 <= max_workers a)%Z /\ "p1" ∈ ["p1"; "p2"]
  /\ exists fs r,
       r ∈ completed (fst out)
       /\ r = fst (run (grant_iam_permission a "p1" "user:a@example.com"
                                             "roles/viewer") fs st)
       /\ policies (snd out) !! "p1"
          = policies (snd (run (grant_iam_permission
                                  a "p1" "user:a@example.com" "roles/viewer")
                               fs st)) !! "p1".
Proof.
  cbv zeta.
  assert (NoDup ["p1"; "p2"]) as Hnd.
  { apply NoDup_cons. split; [|apply NoDup_singleton].
    rewrite list_elem_of_singleton. discriminate. }
  assert ("p1" ∈ ["p1"; "p2"]) as Hin by (left).
  split; [exact Hnd|]. split; [simpl; lia|]. split; [exact Hin|].
  apply (pool_tasks_do_not_disturb_one_another
           (Args false "projects.txt" None None "roles/viewer" 2
                 false false)
           "user:a@example.com" "roles/viewer"
           (fun t : nat =>
              (t, if Nat.eqb (t mod 3) 2 then Some "503" else None))
           ["p1"; "p2"]
           (State {[ "p1" := Iam.Policy None "e1" ]} 0 0 0 [] [])
           "p1" Hnd); [simpl; lia|exact Hin].
Defined.

(** X16.  When no request fails, the run over distinct projects with at
    least one worker does not depend on the schedule: for each project
    the collected results hold the result of the grant operation run
    alone from the initial state, and the policy left for the project is
    the one that run leaves. *)
Theorem pool_without_faults_is_schedule_independent
    (a : args) (member role_ : string) (sched : nat -> nat * fault)
    (projects : list string) (st : state) (pid : string) :
  NoDup projects -> (1 <= max_workers a)%Z ->
  (forall n, snd (sched n) = None) -> pid ∈ projects ->
  let out := process_projects_parallel a member role_ sched projects st in
  let solo := run (grant_iam_permission a pid member role_) [] st in
  fst solo ∈ completed (fst out)
  /\ policies (snd out) !! pid = policies (snd solo) !! pid.
Proof.
  intros Hnd workers Hs Hpid. cbv zeta.
  destruct (pool_outcome_alone a member role_ (fun f => f = None) st sched
              projects pid Hnd workers Hs Hpid)
    as (fs & r & Hfs & Hr & H).
  unfold alone, outcome_of in H.
  rewrite (run_without_faults _ fs st Hfs) in H.
  injection H as H1 H2. subst r. auto.
Qed.

(** Three projects with policies, two workers, the scheduler going
    through the workers backwards. *)
Lemma pool_without_faults_is_schedule_independent_witness :
  let a := Args false "projects.txt" None None "roles/viewer" 2 false false in
  let sched := fun t : nat => (7 - t, @None string) in
  let st := State {[ "p1" := Iam.Policy None "e1";
                     "p2" := Iam.Policy (Some []) "e2";
                     "p3" := Iam.Policy None "e3" ]} 0 0 0 [] [] in
  let out := process_projects_parallel a "user:a@example.com" "roles/viewer"
               sched ["p1"; "p2"; "p3"] st in
  let solo := run (grant_iam_permission a "p2" "user:a@example.com"
                                        "roles/viewer") [] st in
  NoDup ["p1"; "p2"; "p3"] /\ (1 <= max_workers a)%Z
  /\ (forall n, snd (sched n) = None) /\ "p2" ∈ ["p1"; "p2"; "p3"]
  /\ fst solo ∈ completed (fst out)
  /\ policies (snd out) !! "p2" = policies (snd solo) !! "p2".
Proof.
  cbv zeta.
  assert (NoDup ["p1"; "p2"; "p3"]) as Hnd.
  { apply NoDup_cons. split.
    - rewrite !elem_of_cons, elem_of_nil.
      intros [H|[H|H]]; [discriminate..|exact H].
    - apply NoDup_cons. split; [|apply NoDup_singleton].
      rewrite list_elem_of_singleton. discriminate. }
  assert ("p2" ∈ ["p1"; "p2"; "p3"]) as Hin by (right; left).
  split; [exact Hnd|]. split; [simpl; lia|].
  split; [reflexivity|]. split; [exact Hin|].
  apply (pool_without_faults_is_schedule_independent
           (Args false "projects.txt" None None "roles/viewer" 2
                 false false)
           "user:a@example.com" "roles/viewer"
           (fun t : nat => (7 - t, @None string))
           ["p1"; "p2"; "p3"]
           (State {[ "p1" := Iam.Policy None "e1";
                     "p2" := Iam.Policy (Some []) "e2";
                     "p3" := Iam.Policy None "e3" ]} 0 0 0 [] [])
           "p2" Hnd); [simpl; lia|reflexivity|exact Hin].
Defined.

(** X17.  Under every schedule and whatever requests fail, the run
    leaves the policy of every project outside its list as it was, and
    every write it sends addresses a project of the list. *)
Theorem pool_touches_only_the_listed_projects
    (a : args) (member role_ : string) (sched : nat -> nat * fault)
    (projects : list string) (st : state) :
  let out := process_projects_parallel a member role_ sched projects st in
  (forall q, q ∉ projects -> policies (snd out) !! q = policies st !! q)
  /\ exists sent,
       set_requests (snd out) = set_requests st ++ sent
       /\ Forall (fun w => fst w ∈ projects) sent.
Proof.
  cbv zeta. unfold process_projects_parallel.
  destruct (run_pool_keeps a member role_ (fun _ => True)
              (framed st projects)
              (framed_start a member role_ st projects)
              (fun f pl s i pid p _ =>
                 framed_pick st projects f pl s i pid p)
              (6 * length projects) sched 0 (Pool projects [] []) st
              (fun _ => Logic.I) (framed_initial st projects))
    as [_ _ Hstore Hreq].
  split; assumption.
Qed.
End IsolationFacts.

(** ** The error log *)

Section ErrorLogFacts.
Import Granter Isolation ErrorLog.

Ltac logs_step :=
  cbn [bind];
  lazymatch goal with
  | |- logs_ok _ (Ret _) =>
      apply lo_ret; cbn [status]; intros Hfailed;
      [discriminate Hfailed || (left; reflexivity)]
  | |- logs_ok _ (GetIamPolicy _ _) => apply lo_get; intros [?|?]
  | |- logs_ok _ (SetIamPolicy _ _ _) => apply lo_set; intros [?|?]
  | |- logs_ok _ (Incr _ _) => apply lo_incr
  | |- logs_ok _ (LogError _ _) => apply lo_log
  | |- logs_ok _ _ => case_match
  end.

(** The grant operation returns [failed] only from its handler, which
    logs the entry first. *)
Lemma grant_logs_ok (a : args) (pid member role_ : string) :
  logs_ok [] (grant_iam_permission a pid member role_).
Proof.
  unfold grant_iam_permission, check_permission, try_except, bind_try,
    never_raises, getIamPolicy, setIamPolicy, increment, evaluate, return_.
  repeat logs_step.
Qed.

(** An effect of a task removes nothing from the error log, and the task
    keeps its contract. *)
Lemma step_logs_ok (mine : list string) (p : prog task_result) (f : fault)
    (st : state) :
  logs_ok mine p -> Forall (fun m => m ∈ errors_log st) mine ->
  (forall m, m ∈ errors_log st -> m ∈ errors_log (snd (step f p st)))
  /\ exists mine',
       logs_ok mine' (fst (step f p st))
       /\ Forall (fun m => m ∈ errors_log (snd (step f p st))) mine'.
Proof.
  intros H Hmine.
  destruct H as [mine r Hr | mine res k Hk | mine res body k Hk
                 | mine c k Hk | mine msg k Hk]; simpl.
  - split; [auto|]. exists mine. split; [constructor|]; assumption.
  - split; [auto|]. exists mine. split; [apply Hk|exact Hmine].
  - destruct (api_set f res body st) as [o st'] eqn:E. simpl.
    apply api_set_effect in E as (_ & -> & _).
    split; [auto|]. exists mine. split; [apply Hk|exact Hmine].
  - assert (errors_log (bump c st) = errors_log st) as ->
      by (destruct c; reflexivity).
    split; [auto|]. exists mine. split; assumption.
  - split; [intros m Hm; apply elem_of_app; auto|].
    exists (msg :: mine). split; [exact Hk|]. constructor.
    + apply elem_of_app. right. left.
    + eapply Forall_impl; [exact Hmine|].
      intros m Hm. apply elem_of_app. auto.
Qed.

Section Logged.
Variables (a : args) (member role_ : string).

Lemma logged_start (pl : pool) (st : state) :
  logged pl st -> logged (start_workers a member role_ pl) st.
Proof.
  intros [Hrun Hdone]. split; simpl; [|exact Hdone].
  apply Forall_app. split; [exact Hrun|].
  apply Forall_forall. intros t Ht.
  apply list_elem_of_fmap_1 in Ht as (pid & -> & _). simpl.
  exists []. split; [apply grant_logs_ok|constructor].
Qed.

Lemma logged_pick (f : fault) (pl : pool) (st : state) (i : nat)
    (pid : string) (p : prog task_result) :
  logged pl st -> running pl !! i = Some (pid, p) ->
  logged (fst (picked f pl st i pid p)) (snd (picked f pl st i pid p)).
Proof.
  intros [Hrun Hdone] Hi.
  assert (i < length (running pl)) as Hlt
    by (eapply lookup_lt_Some; eauto).
  pose proof (take_drop_middle _ _ _ Hi) as Hsplit.
  rewrite <- Hsplit in Hrun.
  apply Forall_app in Hrun as [Hr1 Hr2].
  apply Forall_cons in Hr2 as [(mine & Hp & Hmine) Hr2]. simpl in Hp.
  destruct (step_logs_ok mine p f st Hp Hmine)
    as (Hkeep & mine' & Hp' & Hmine').
  unfold picked. destruct (step f p st) as [p' st'] eqn:Hstep.
  simpl in Hkeep, Hp', Hmine'.
  assert (forall l : list (string * prog task_result),
            Forall (fun t => exists mine0,
                        logs_ok mine0 (snd t)
                        /\ Forall (fun m => m ∈ errors_log st) mine0) l ->
            Forall (fun t => exists mine0,
                        logs_ok mine0 (snd t)
                        /\ Forall (fun m => m ∈ errors_log st') mine0) l)
    as Hmove.
  { intros l Hl. eapply Forall_impl; [exact Hl|].
    intros t (mine0 & Ht & Hin). exists mine0. split; [exact Ht|].
    eapply Forall_impl; [exact Hin|]. exact Hkeep. }
  apply Hmove in Hr1, Hr2.
  assert (Forall (fun r => status r = failed ->
                           failure_entry r ∈ errors_log st')
                 (completed pl)) as Hdone'.
  { eapply Forall_impl; [exact Hdone|]. intros r Hr Hs. auto. }
  assert (logged (Pool (pending pl) (<[i := (pid, p')]> (running pl))
                       (completed pl)) st') as Hgo.
  { split; simpl; [|exact Hdone'].
    rewrite insert_take_drop by exact Hlt. apply Forall_app.
    split; [exact Hr1|]. constructor; [|exact Hr2]. exists mine'. auto. }
  destruct p'; simpl; [|exact Hgo..].
  split; simpl.
  - rewrite delete_take_drop. apply Forall_app. auto.
  - apply Forall_app. split; [exact Hdone'|]. constructor; [|constructor].
    intros Hs. inversion Hp' as [? ? Hentry| | | |]; subst.
    rewrite Forall_forall in Hmine'. apply Hmine', Hentry, Hs.
Qed.
End Logged.

(** X18.  Under every schedule and whatever requests fail, every [failed]
    result the run collects has its entry, the project and the message of
    the result, in the error log; so after a run with a failed project
    the error log is written to [grant-access-errors.log], one entry a
    line, and the process ends with status 1 when the file cannot be
    opened. *)
Theorem every_failed_project_is_in_the_error_log
    (a : args) (member role_ : string) (sched : nat -> nat * fault)
    (projects : list string) (st : state) (files : gmap string string)
    (r : task_result) :
  let out := process_projects_parallel a member role_ sched projects st in
  r ∈ completed (fst out) -> status r = failed ->
  ("Project: " +:+ project_id r +:+ " - " +:+ message r)
    ∈ errors_log (snd out)
  /\ write_errors true (snd out) files
     = Continue (<["grant-access-errors.log"
                   := errors_text (errors_log (snd out))]> files)
  /\ write_errors false (snd out) files = Exit 1.
Proof.
  cbv zeta. unfold process_projects_parallel. intros Hr Hs.
  destruct (run_pool_keeps a member role_ (fun _ => True) logged
              (logged_start a member role_)
              (fun f pl s i pid p _ => logged_pick f pl s i pid p)
              (6 * length projects) sched 0 (Pool projects [] []) st
              (fun _ => Logic.I))
    as [_ Hdone].
  { split; simpl; constructor. }
  rewrite Forall_forall in Hdone. specialize (Hdone r Hr Hs).
  split; [exact Hdone|]. unfold write_errors.
  destruct (errors_log _) as [|e es]; [|split; reflexivity].
  apply elem_of_nil in Hdone. contradiction.
Qed.

(** Two projects and two workers; the second project has no policy the
    caller may read, so its task fails. *)
Lemma every_failed_project_is_in_the_error_log_witness :
  let a := Args false "projects.txt" None None "roles/viewer" 2 false false in
  let sched := fun t : nat => (t, @None string) in
  let st := State {[ "p1" := Iam.Policy None "e1" ]} 0 0 0 [] [] in
  let out := process_projects_parallel a "user:a@example.com" "roles/viewer"
               sched ["p1"; "p2"] st in
  let r := TaskResult "p2" failed "The caller does not have permission" in
  r ∈ completed (fst out) /\ status r = failed
  /\ "Project: p2 - The caller does not have permission"
       ∈ errors_log (snd out)
  /\ write_errors false (snd out) ∅ = Exit 1.
Proof.
  cbv zeta.
  assert (TaskResult "p2" failed "The caller does not have permission"
          ∈ completed
              (fst (process_projects_parallel
                      (Args false "projects.txt" None None "roles/viewer" 2
                            false false)
                      "user:a@example.com" "roles/viewer"
                      (fun t : nat => (t, @None string)) ["p1"; "p2"]
                      (State {[ "p1" := Iam.Policy None "e1" ]}
                             0 0 0 [] [])))) as Hin.
  { apply list_elem_of_In. vm_compute. auto. }
  split; [exact Hin|]. split; [reflexivity|].
  destruct (every_failed_project_is_in_the_error_log
              (Args false "projects.txt" None None "roles/viewer" 2
                    false false)
              "user:a@example.com" "roles/viewer"
              (fun t : nat => (t, @None string)) ["p1"; "p2"]
              (State {[ "p1" := Iam.Policy None "e1" ]} 0 0 0 [] [])
              ∅ _ Hin eq_refl) as (Hlog & _ & Hexit).
  split; [exact Hlog|exact Hexit].
Defined.
End ErrorLogFacts.

